(** * backbone.drupal: session, CSRF token store, sync override and entity
    coercions, as a shallow embedding of [backbone.drupal.js].

    The file follows the source top-down: the JavaScript values the code
    inspects ([typeof], [parseInt], [isNaN], truthiness, loose comparison
    with [0]), the entity models with their coercions, URLs and
    serialisation, then the asynchronous part (token store, [Backbone.sync]
    override, session login and logout) as tasks that suspend at each
    network request. *)

From Stdlib Require Import ZArith Ascii String List Bool Lia.
From stdpp Require Import base option gmap strings list pretty.

Local Open Scope string_scope.
Local Open Scope Z_scope.

(** ** JavaScript values *)

Module JS.

(** Numbers.  The source never does arithmetic: it compares with [0], asks
    [isNaN], and reads numbers back through their decimal rendering
    ([parseInt], string concatenation).  A finite number is written as a
    decimal numeral: [Dec m e] stands for the binary64 value nearest to
    [m * 10^e] (ties to even), as a numeric literal does.  [normalize]
    writes that value out exactly, so that two numerals stand for the
    same number exactly when they have the same normal form; [-0] is not
    told apart from [0]. *)
Inductive number : Type :=
  | NaN
  | Inf (negative : bool)
  | Dec (m e : Z).

Inductive value : Type :=
  | VUndefined
  | VNull
  | VBool (b : bool)
  | VNum (n : number)
  | VStr (s : string)
  | VObj (ref : positive).   (* a plain object, compared by reference *)

Inductive type_tag : Type :=
  | TUndefined | TObject | TBoolean | TNumber | TString.

Definition int (z : Z) : value := VNum (Dec z 0).

#[global] Instance number_eq_dec : EqDecision number.
Proof. solve_decision. Defined.
#[global] Instance value_eq_dec : EqDecision value.
Proof. solve_decision. Defined.
#[global] Instance type_tag_eq_dec : EqDecision type_tag.
Proof. solve_decision. Defined.

Definition typeof (v : value) : type_tag :=
  match v with
  | VUndefined => TUndefined
  | VNull => TObject
  | VBool _ => TBoolean
  | VNum _ => TNumber
  | VStr _ => TString
  | VObj _ => TObject
  end.

Definition isNaN (n : number) : bool :=
  match n with NaN => true | _ => false end.

(** *** Rounding to binary64 *)

(** The number of decimal digits of a positive integer: estimated from its
    binary length, then set right against the powers of ten. *)
Definition digits (a : Z) : Z :=
  let d := Z.log2 a * 30102999566398 / 100000000000000 + 1 in
  if 10 ^ d <=? a then d + 1
  else if a <? 10 ^ (d - 1) then d - 1
  else d.

(** [m / 10^k] as long as it is exact and [e] stays below zero. *)
Fixpoint strip10 (fuel : nat) (m e : Z) : Z * Z :=
  match fuel with
  | O => (m, e)
  | S fuel' =>
      if (e <? 0) && (m mod 10 =? 0) then strip10 fuel' (m / 10) (e + 1)
      else (m, e)
  end.

(** The binary64 value nearest to [a * 10^e] for [a > 0] (ties to even),
    as [q * 2^e2] with [q] of at most 53 bits and [e2] no less than
    [-1074]. *)
Definition nearest64 (a e : Z) : Z * Z :=
  let num := if 0 <=? e then a * 10 ^ e else a in
  let den := if 0 <=? e then 1 else 10 ^ (- e) in
  let est := Z.log2 num - Z.log2 den - 52 in
  let floorq e2 :=
    if 0 <=? e2 then num / (den * 2 ^ e2) else (num * 2 ^ (- e2)) / den in
  let e2 := if 2 ^ 52 <=? floorq est then est else est - 1 in
  let e2 := Z.max e2 (-1074) in
  let n' := if 0 <=? e2 then num else num * 2 ^ (- e2) in
  let d' := if 0 <=? e2 then den * 2 ^ e2 else den in
  let q := n' / d' in
  let r := n' mod d' in
  let up := (d' <? 2 * r) || ((d' =? 2 * r) && Z.odd q) in
  (if up then q + 1 else q, e2).

(** The Number value a numeral stands for, written out exactly: an
    integer as [Dec z 0], a fraction as [Dec m e] with [e < 0] and [m] no
    multiple of ten, [Inf] beyond the range.  Integers below [2^53] in
    magnitude are binary64 values as they are. *)
Definition normalize (n : number) : number :=
  match n with
  | Dec m e =>
      if (e =? 0) && (Z.abs m <? 2 ^ 53) then Dec m 0
      else if m =? 0 then Dec 0 0
      else
        let a := Z.abs m in
        let size := e + digits a in
        if 310 <? size then Inf (m <? 0)
        else if size <? -330 then Dec 0 0
        else
          let '(q, e2) := nearest64 a e in
          if 2 ^ 1024 <=? (if 0 <=? e2 then q * 2 ^ e2 else 0)
          then Inf (m <? 0)
          else if q =? 0 then Dec 0 0
          else
            let '(m', e') :=
              if 0 <=? e2 then (q * 2 ^ e2, 0)
              else strip10 (Z.to_nat (- e2)) (q * 5 ^ (- e2)) e2 in
            Dec (if m <? 0 then - m' else m') e'
  | _ => n
  end.

(** [n > 0] *)
Definition gt0 (n : number) : bool :=
  match normalize n with
  | NaN => false
  | Inf negative => negb negative
  | Dec m _ => 0 <? m
  end.

(** [n == 0] on numbers *)
Definition is_zero (n : number) : bool :=
  match normalize n with
  | Dec m _ => m =? 0
  | _ => false
  end.

(** ToBoolean *)
Definition truthy (v : value) : bool :=
  match v with
  | VUndefined | VNull => false
  | VBool b => b
  | VNum n => negb (isNaN n || is_zero n)
  | VStr s => negb (String.eqb s "")
  | VObj _ => true
  end.

(** *** Characters.  Strings are kept as their UTF-8 bytes. *)

Definition chars (s : string) : list ascii := list_ascii_of_string s.
Definition str (cs : list ascii) : string := string_of_list_ascii cs.

Definition byte (c : ascii) : Z := Z.of_nat (nat_of_ascii c).

Definition ascii_white (n : Z) : bool :=
  ((9 <=? n) && (n <=? 13)) || (n =? 32).

(** The length in bytes of the white-space character (WhiteSpace or
    LineTerminator: the ASCII ones, U+00A0, U+1680, U+2000 to U+200A,
    U+2028, U+2029, U+202F, U+205F, U+3000, U+FEFF) that [cs] starts
    with, or [0] when it starts with none. *)
Definition white_length (cs : list ascii) : nat :=
  match cs with
  | [] => 0%nat
  | c1 :: r1 =>
      let a := byte c1 in
      if ascii_white a then 1%nat
      else if (a <? 194) || negb ((a =? 194) || (a =? 225) || (a =? 226)
                                   || (a =? 227) || (a =? 239)) then 0%nat
      else
        match r1 with
        | [] => 0%nat
        | c2 :: r2 =>
            let b := byte c2 in
            if (a =? 194) then (if b =? 160 then 2%nat else 0%nat)
            else
              match r2 with
              | [] => 0%nat
              | c3 :: _ =>
                  let c := byte c3 in
                  if ((a =? 225) && (b =? 154) && (c =? 128))
                     || ((a =? 226) && (b =? 128)
                         && (((128 <=? c) && (c <=? 138)) || (c =? 168)
                             || (c =? 169) || (c =? 175)))
                     || ((a =? 226) && (b =? 129) && (c =? 159))
                     || ((a =? 227) && (b =? 128) && (c =? 128))
                     || ((a =? 239) && (b =? 187) && (c =? 191))
                  then 3%nat else 0%nat
              end
        end
  end.

Fixpoint drop_white_fuel (fuel : nat) (cs : list ascii) : list ascii :=
  match fuel with
  | O => cs
  | S fuel' =>
      match white_length cs with
      | O => cs
      | n => drop_white_fuel fuel' (drop n cs)
      end
  end.

Definition drop_white (cs : list ascii) : list ascii :=
  drop_white_fuel (length cs) cs.

(** The same from the end: [rs] is the string reversed. *)
Definition white_length_rev (rs : list ascii) : nat :=
  match rs with
  | c1 :: _ =>
      if ascii_white (byte c1) then 1
      else if white_length (rev (take 2 rs)) =? 2 then 2
      else if white_length (rev (take 3 rs)) =? 3 then 3
      else 0
  | [] => 0
  end%nat.

Fixpoint drop_white_rev (fuel : nat) (rs : list ascii) : list ascii :=
  match fuel with
  | O => rs
  | S fuel' =>
      match white_length_rev rs with
      | O => rs
      | n => drop_white_rev fuel' (drop n rs)
      end
  end.

Definition trim (cs : list ascii) : list ascii :=
  let cs := drop_white cs in
  rev (drop_white_rev (length cs) (rev cs)).

Definition digit_val (c : ascii) : option Z :=
  let n := byte c in
  if (48 <=? n) && (n <=? 57) then Some (n - 48)
  else if (97 <=? n) && (n <=? 102) then Some (n - 87)
  else if (65 <=? n) && (n <=? 70) then Some (n - 55)
  else None.

Definition digit_in (radix : Z) (c : ascii) : option Z :=
  match digit_val c with
  | Some d => if d <? radix then Some d else None
  | None => None
  end.

(** The longest prefix of radix-[radix] digits, as digit values, and the
    rest of the input. *)
Fixpoint span_digits (radix : Z) (cs : list ascii) : list Z * list ascii :=
  match cs with
  | [] => ([], [])
  | c :: cs' =>
      match digit_in radix c with
      | Some d => let '(ds, rest) := span_digits radix cs' in (d :: ds, rest)
      | None => ([], cs)
      end
  end.

Definition digits_value (radix : Z) (ds : list Z) : Z :=
  fold_left (fun acc d => acc * radix + d) ds 0.

(** *** Number to string (ECMAScript Number::toString) *)

Fixpoint drop_zeros (cs : list ascii) : list ascii :=
  match cs with
  | "0"%char :: cs' => drop_zeros cs'
  | _ => cs
  end.

Definition zeros (n : Z) : list ascii := repeat "0"%char (Z.to_nat n).

(** The layout of the digits of [m] with the decimal exponent [e]:
    plain up to 21 integer digits and down to six leading zeros,
    exponent notation beyond. *)
Definition formatDigits (m e : Z) : string :=
  if m =? 0 then "0" else
  let all := chars (pretty (Z.abs m)) in
  let ds := rev (drop_zeros (rev all)) in
  let e' := e + Z.of_nat (length all) - Z.of_nat (length ds) in
  let k := Z.of_nat (length ds) in
  let n := k + e' in
  let exponent :=
    (chars (if 0 <=? n - 1 then "e+" else "e-")
       ++ chars (pretty (Z.abs (n - 1))))%list in
  let body :=
    (if (k <=? n) && (n <=? 21) then ds ++ zeros (n - k)
     else if (0 <? n) && (n <=? 21) then
       take (Z.to_nat n) ds ++ chars "." ++ drop (Z.to_nat n) ds
     else if (-6 <? n) && (n <=? 0) then chars "0." ++ zeros (- n) ++ ds
     else if k =? 1 then ds ++ exponent
     else take 1 ds ++ chars "." ++ drop 1 ds ++ exponent)%list in
  str ((if m <? 0 then chars "-" else []) ++ body)%list.

(** The shortest decimal that reads back as the positive value [Dec m e]
    (a normal form, [len] digits long): for [k = 1, 2, ...] digits, the
    two [k]-digit decimals around the value are tried, and of two that
    read back the nearer one is taken. *)
Fixpoint shortest_from (fuel : nat) (k : Z) (m e len : Z) : Z * Z :=
  match fuel with
  | O => (m, e)
  | S fuel' =>
      if len <=? k then (m, e)
      else
        let unit := 10 ^ (len - k) in
        let lo := m / unit in
        let rem := m mod unit in
        let e' := e + len - k in
        let lo_ok := bool_decide (normalize (Dec lo e') = Dec m e) in
        let hi_ok := bool_decide (normalize (Dec (lo + 1) e') = Dec m e) in
        let hi_nearer :=
          (unit <? 2 * rem) || ((unit =? 2 * rem) && Z.odd lo) in
        if lo_ok && hi_ok then (if hi_nearer then lo + 1 else lo, e')
        else if lo_ok then (lo, e')
        else if hi_ok then (lo + 1, e')
        else shortest_from fuel' (k + 1) m e len
  end.

Definition shortest (m e : Z) : Z * Z := shortest_from 17 1 m e (digits m).

(** An integer below [2^53] in magnitude is printed in full: no shorter
    decimal reads back as it. *)
Definition finiteToString (m e : Z) : string :=
  match normalize (Dec m e) with
  | Dec m' e' =>
      if (e' =? 0) && (Z.abs m' <? 2 ^ 53) then formatDigits m' 0
      else
        let '(s, x) := shortest (Z.abs m') e' in
        formatDigits (if m' <? 0 then - s else s) x
  | Inf false => "Infinity"
  | Inf true => "-Infinity"
  | NaN => "NaN"
  end.

Definition numberToString (n : number) : string :=
  match n with
  | NaN => "NaN"
  | Inf false => "Infinity"
  | Inf true => "-Infinity"
  | Dec m e => finiteToString m e
  end.

(** ToString; plain objects render as [[object Object]]. *)
Definition toString (v : value) : string :=
  match v with
  | VUndefined => "undefined"
  | VNull => "null"
  | VBool true => "true"
  | VBool false => "false"
  | VNum n => numberToString n
  | VStr s => s
  | VObj _ => "[object Object]"
  end.

(** *** parseInt without a radix (ECMAScript 15.1.2.2) *)

Definition parseIntChars (cs : list ascii) : number :=
  let cs := drop_white cs in
  let '(negative, cs) :=
    match cs with
    | "-"%char :: r => (true, r)
    | "+"%char :: r => (false, r)
    | _ => (false, cs)
    end in
  let '(radix, cs) :=
    match cs with
    | "0"%char :: "x"%char :: r => (16, r)
    | "0"%char :: "X"%char :: r => (16, r)
    | _ => (10, cs)
    end in
  match span_digits radix cs with
  | ([], _) => NaN
  | (ds, _) =>
      let z := digits_value radix ds in
      normalize (Dec (if negative then - z else z) 0)
  end.

Definition parseInt (v : value) : number := parseIntChars (chars (toString v)).

(** *** ToNumber on strings (ECMAScript 9.3.1) *)

Definition exponent_part (cs : list ascii) : option (Z * list ascii) :=
  match cs with
  | c :: r =>
      if bool_decide (c = "e"%char ∨ c = "E"%char) then
        let '(negative, r) :=
          match r with
          | "-"%char :: r' => (true, r')
          | "+"%char :: r' => (false, r')
          | _ => (false, r)
          end in
        match span_digits 10 r with
        | ([], _) => None
        | (ds, rest) =>
            let z := digits_value 10 ds in
            Some (if negative then - z else z, rest)
        end
      else Some (0, cs)
  | [] => Some (0, [])
  end.

Definition decimalLiteral (negative : bool) (cs : list ascii) : number :=
  let '(ip, r1) := span_digits 10 cs in
  let '(fp, r2) :=
    match r1 with
    | "."%char :: r => span_digits 10 r
    | _ => ([], r1)
    end in
  match (ip ++ fp)%list, exponent_part r2 with
  | _ :: _, Some (ex, []) =>
      let z := digits_value 10 (ip ++ fp)%list in
      normalize (Dec (if negative then - z else z) (ex - Z.of_nat (length fp)))
  | _, _ => NaN
  end.

Definition radixLiteral (radix : Z) (cs : list ascii) : number :=
  match span_digits radix cs with
  | ((_ :: _) as ds, []) => normalize (Dec (digits_value radix ds) 0)
  | _ => NaN
  end.

Definition stringToNumber (s : string) : number :=
  match trim (chars s) with
  | [] => Dec 0 0
  | "0"%char :: "x"%char :: r | "0"%char :: "X"%char :: r => radixLiteral 16 r
  | "0"%char :: "o"%char :: r | "0"%char :: "O"%char :: r => radixLiteral 8 r
  | "0"%char :: "b"%char :: r | "0"%char :: "B"%char :: r => radixLiteral 2 r
  | (c :: r) as cs =>
      let '(negative, body) :=
        if bool_decide (c = "-"%char) then (true, r)
        else if bool_decide (c = "+"%char) then (false, r)
        else (false, cs) in
      if bool_decide (body = chars "Infinity") then Inf negative
      else decimalLiteral negative body
  end.

(** [v == 0] (abstract equality, ECMAScript 11.9.3) *)
Definition loose_eq_zero (v : value) : bool :=
  match v with
  | VUndefined | VNull => false
  | VBool b => negb b
  | VNum n => is_zero n
  | VStr s => is_zero (stringToNumber s)
  | VObj _ => false
  end.

(** *** toLowerCase, as far as ASCII goes: the letters [A] to [Z], and
    the Kelvin sign (U+212A), the one character beyond ASCII whose lower
    case is an ASCII letter.  Other characters are left as they are. *)

Fixpoint lower (cs : list ascii) : list ascii :=
  match cs with
  | [] => []
  | c :: r =>
      let n := byte c in
      if (65 <=? n) && (n <=? 90) then ascii_of_nat (Z.to_nat (n + 32)) :: lower r
      else
        match r with
        | c2 :: c3 :: r' =>
            if (n =? 226) && (byte c2 =? 132) && (byte c3 =? 170)
            then "k"%char :: lower r'
            else c :: lower r
        | _ => c :: lower r
        end
  end.

Definition toLowerCase (s : string) : string := str (lower (chars s)).

(** *** encodeURIComponent, on the UTF-8 bytes *)

Definition unreserved (c : ascii) : bool :=
  let n := nat_of_ascii c in
  (((48 <=? n) && (n <=? 57)) || ((65 <=? n) && (n <=? 90))
   || ((97 <=? n) && (n <=? 122)))%nat
  || bool_decide (c ∈ chars "-_.!~*'()").

Definition hex_digit (n : nat) : ascii :=
  if (n <? 10)%nat then ascii_of_nat (48 + n) else ascii_of_nat (55 + n).

Definition encode_byte (c : ascii) : list ascii :=
  if unreserved c then [c]
  else
    let n := nat_of_ascii c in
    ["%"%char; hex_digit (n / 16); hex_digit (n mod 16)].

Definition encodeURIComponent (s : string) : string :=
  str (concat (map encode_byte (chars s))).

End JS.

Import JS.

(** A JavaScript object used as a map from property names to values.  A
    missing property reads as [undefined]. *)
Definition prop (o : gmap string value) (key : string) : value :=
  default VUndefined (o !! key).

(** ** Entity models ([Backbone.Drupal.Model.Entity] and its variants) *)

(** *** The coercions *)

Definition convertBoolInput (v : value) : value :=
  match v with
  | VBool _ => v
  | _ =>
      let n := parseInt v in
      if isNaN n then VBool false else VBool (gt0 n)
  end.

Definition convertBoolOutput (v : value) : value :=
  match v with
  | VNum n => if gt0 n then VBool true else VNull
  | VBool b => if b then VBool true else VNull
  | _ =>
      if bool_decide (v = VStr "1" ∨ v = VStr "true") then VBool true
      else VNull
  end.

Definition convertInteger (v : value) : value :=
  match v with
  | VBool b => if b then int 1 else int 0
  | _ =>
      let n := parseInt v in
      if isNaN n then int 0 else VNum n
  end.

(** *** Class-level configuration (the static properties) *)

Record EntityClass : Type := {
  idKey : string;
  entityType : string;
  bundleKey : option string;
  labelKey : string;
  booleanFields : list string;
  integerFields : list string
}.

(** The base class leaves [idKey], [entityType] and [labelKey] at [null];
    used as a property name or in a string concatenation [null] reads as
    the string [null], which is how it is kept here. *)
Definition EntityBase : EntityClass := {|
  idKey := "null"; entityType := "null"; bundleKey := None;
  labelKey := "null"; booleanFields := []; integerFields := []
|}.

Definition FileClass : EntityClass := {|
  idKey := "fid"; entityType := "file"; bundleKey := Some "type";
  labelKey := "filename"; booleanFields := [];
  integerFields := ["filesize"; "status"; "timestamp"; "uid"]
|}.

Definition NodeClass : EntityClass := {|
  idKey := "nid"; entityType := "node"; bundleKey := Some "type";
  labelKey := "title"; booleanFields := ["status"; "sticky"; "promote"];
  integerFields :=
    ["changed"; "cid"; "comment"; "comment_count"; "created";
     "last_comment_timestamp"; "last_comment_uid"; "revision_timestamp";
     "revision_uid"; "tnid"; "translate"; "uid"; "vid"]
|}.

Definition TaxonomyTermClass : EntityClass := {|
  idKey := "tid"; entityType := "taxonomy_term";
  bundleKey := Some "vocabulary_machine_name"; labelKey := "name";
  booleanFields := booleanFields EntityBase;
  integerFields := ["vid"; "weight"]
|}.

Definition TaxonomyVocabularyClass : EntityClass := {|
  idKey := "vid"; entityType := "taxonomy_vocabulary";
  bundleKey := bundleKey EntityBase; labelKey := "name";
  booleanFields := booleanFields EntityBase;
  integerFields := ["hierarchy"; "weight"]
|}.

Definition UserClass : EntityClass := {|
  idKey := "uid"; entityType := "user";
  bundleKey := bundleKey EntityBase; labelKey := "name";
  booleanFields := booleanFields EntityBase;
  integerFields := ["access"; "created"; "login"; "status"]
|}.

(** *** Instances *)

(** A model instance: its class, Backbone's client id [cid] (unique per
    object, so it stands for the object's identity) and its attributes. *)
Record Entity : Type := {
  constructor : EntityClass;
  cid : positive;
  attributes : gmap string value
}.

Module Model.

Definition get (e : Entity) (key : string) : value := prop (attributes e) key.

(** Backbone: [has] is [get(attr) != null]; [isNew] is
    [!this.has(this.idAttribute)], and [initialize] makes [idAttribute]
    the class's [idKey]. *)
Definition has (e : Entity) (key : string) : bool :=
  match get e key with
  | VUndefined | VNull => false
  | _ => true
  end.

Definition isNew (e : Entity) : bool := negb (has e (idKey (constructor e))).

Definition label (e : Entity) : value := get e (labelKey (constructor e)).

Definition bundle (e : Entity) : value :=
  match bundleKey (constructor e) with
  | None => VNull
  | Some key => get e key
  end.

Definition url (e : Entity) : string :=
  let root := "/" +:+ entityType (constructor e) in
  if isNew e then root
  else root +:+ "/" +:+ encodeURIComponent (toString (get e (idKey (constructor e)))).

(** One step of the [_.each] loops of [toJSON] and [cleanInput]: coerce
    [values[key]] in place unless it is [undefined]. *)
Definition coerce_field (f : value → value)
    (values : gmap string value) (key : string) : gmap string value :=
  if bool_decide (typeof (prop values key) ≠ TUndefined)
  then <[key := f (prop values key)]> values
  else values.

(** Backbone's own [toJSON] is a shallow copy of the attributes. *)
Definition toJSON (e : Entity) : gmap string value :=
  let attributes := attributes e in
  let attributes :=
    foldl (coerce_field convertInteger) attributes
      (integerFields (constructor e)) in
  let attributes :=
    foldl (coerce_field convertBoolOutput) attributes
      (booleanFields (constructor e)) in
  delete "rdf_mapping" attributes.

Definition cleanInput (c : EntityClass) (values : gmap string value)
    : gmap string value :=
  let values := foldl (coerce_field convertInteger) values (integerFields c) in
  let values := foldl (coerce_field convertBoolInput) values (booleanFields c) in
  coerce_field convertInteger values (idKey c).

(** The first argument of [set]: nothing ([null] or [undefined]), an
    object of attributes, or a key with its value. *)
Inductive set_arg : Type :=
  | SetNothing
  | SetAttrs (attrs : gmap string value)
  | SetKey (key : string) (val : value).

(** Backbone's own [set] (no [unset], no validator): each given attribute
    overwrites the current one. *)
Definition backbone_set (attrs : gmap string value) (e : Entity) : Entity :=
  {| constructor := constructor e; cid := cid e;
     attributes := attrs ∪ attributes e |}.

Definition set (key : set_arg) (e : Entity) : Entity :=
  match key with
  | SetNothing => e
  | SetAttrs attrs => backbone_set (cleanInput (constructor e) attrs) e
  | SetKey k val => backbone_set (cleanInput (constructor e) {[k := val]}) e
  end.

(** [new C(attrs)]: Backbone's constructor starts from no attributes and
    calls [set]. *)
Definition create (c : EntityClass) (id : positive)
    (attrs : gmap string value) : Entity :=
  set (SetAttrs attrs) {| constructor := c; cid := id; attributes := ∅ |}.

End Model.

(** *** The file model, with its two instance properties *)

Record File : Type := {
  file_model : Entity;
  fileContents : value;
  imageStyles : value
}.

Module FileModel.

(** The prototype's [fileContents: 0] and [imageStyles: 1]. *)
Definition create (id : positive) (attrs : gmap string value) : File :=
  {| file_model := Model.create FileClass id attrs;
     fileContents := int 0;
     imageStyles := int 1 |}.

Definition url (f : File) : string :=
  let url := Model.url (file_model f) in
  if Model.isNew (file_model f) then url
  else url +:+ "?file_contents=" +:+ toString (convertInteger (fileContents f))
           +:+ "&image_styles=" +:+ toString (convertInteger (imageStyles f)).

End FileModel.

(** *** Collections *)

Module Collection.

Definition url (model : EntityClass) : string := "/" +:+ entityType model.

End Collection.

(** ** The asynchronous part *)

(** *** Network requests and responses *)

(** The request headers set on the [jqXHR] object from [beforeSend] on.
    jQuery keeps each header under the name it was first set with and
    matches names without regard to case ([name.toLowerCase()]): setting
    a header again, however it is spelled, overwrites its value.  Header
    names are ASCII. *)
Definition header_name (name : string) (xhr : gmap string value) : string :=
  default name
    (head (filter (λ k, toLowerCase k = toLowerCase name)
             (map_to_list xhr).*1)).

Definition setRequestHeader (name : string) (v : value)
    (xhr : gmap string value) : gmap string value :=
  <[header_name name xhr := v]> xhr.

Record Request : Type := {
  req_type : string;
  req_url : string;
  req_data : option (gmap string value);   (* the object sent as JSON *)
  req_contentType : option string;
  withCredentials : bool;
  req_headers : gmap string value
}.

(** The JSON body of a successful response, an object: [data.token], and
    [data.user], a user record, or [None] where the answer has none
    ([data.user] is [undefined] or [null]). *)
Record Response : Type := {
  data_token : value;
  data_user : option (gmap string value)
}.

Inductive outcome : Type :=
  | Success (data : Response)
  | Failure.

(** *** The state the code mutates *)

(** The session model: its Backbone attributes ([loggedIn]) and the
    [user] property. *)
Record Session : Type := {
  session_attributes : gmap string value;
  user : Entity
}.

(** [Backbone.Drupal.appRoot], the function property
    [getCsrfToken.token], and the session singleton. *)
Record World : Type := {
  appRoot : string;
  csrfToken : value;
  session : Session
}.

(** *** Promises and tasks *)

(** Where a call has got to once nothing more is scheduled: its promise
    resolved, rejected, or left pending for good; or an exception was
    raised. *)
Inductive state (A : Type) : Type :=
  | Resolved (a : A)
  | Rejected
  | Pending
  | Thrown.
Arguments Resolved {A} a.
Arguments Rejected {A}.
Arguments Pending {A}.
Arguments Thrown {A}.

(** A task runs synchronously up to its next network request and resumes
    in the continuation when the outcome arrives, on the world as it is
    then. *)
Inductive Task (A : Type) : Type :=
  | Done (w : World) (p : state A)
  | Ajax (w : World) (rq : Request) (k : outcome → World → Task A).
Arguments Done {A} w p.
Arguments Ajax {A} w rq k.

(** [Backbone.$.ajax(settings)] *)
Definition ajax (rq : Request) (w : World) : Task Response :=
  Ajax w rq (λ o w',
    match o with
    | Success data => Done w' (Resolved data)
    | Failure => Done w' Rejected
    end).

(** [p.then(f)]: [f] runs when [p] resolves and the new promise follows
    what [f] returns; a rejection passes through. *)
Fixpoint then_ {A B} (p : Task A) (f : A → World → Task B) : Task B :=
  match p with
  | Done w (Resolved a) => f a w
  | Done w Rejected => Done w Rejected
  | Done w Pending => Done w Pending
  | Done w Thrown => Done w Thrown
  | Ajax w rq k => Ajax w rq (λ o w', then_ (k o w') f)
  end.

(** [p.done(f)]: [f] runs when [p] resolves; the result is [p] itself. *)
Fixpoint done_ {A} (p : Task A) (f : A → World → World) : Task A :=
  match p with
  | Done w (Resolved a) => Done (f a w) (Resolved a)
  | Done w q => Done w q
  | Ajax w rq k => Ajax w rq (λ o w', done_ (k o w') f)
  end.

(** [var deferred = Deferred(); p.done(f); return deferred.promise()]
    where [deferred] is resolved inside [f] only: when [p] is rejected
    nothing touches [deferred], which stays pending. *)
Fixpoint resolving {A B} (p : Task A) (f : A → World → Task B) : Task B :=
  match p with
  | Done w (Resolved a) => f a w
  | Done w Rejected => Done w Pending
  | Done w Pending => Done w Pending
  | Done w Thrown => Done w Thrown
  | Ajax w rq k => Ajax w rq (λ o w', resolving (k o w') f)
  end.

(** Running one task on its own against the outcomes the server gives,
    in order: nothing else runs in between, so each continuation resumes
    on the world its request was sent from.  The result is the final
    world, the requests sent, and the state reached ([None] while a
    request is still in flight). *)
Record Run (A : Type) : Type := {
  final : World;
  sent : list Request;
  result : option (state A)
}.
Arguments final {A} r.
Arguments sent {A} r.
Arguments result {A} r.

Fixpoint run {A} (t : Task A) (script : list outcome) : Run A :=
  match t with
  | Done w p => {| final := w; sent := []; result := Some p |}
  | Ajax w rq k =>
      match script with
      | [] => {| final := w; sent := [rq]; result := None |}
      | o :: script' =>
          let r := run (k o w) script' in
          {| final := final r; sent := rq :: sent r; result := result r |}
      end
  end.

(** *** The token store *)

Definition setCsrfToken (token : value) (w : World) : World :=
  {| appRoot := appRoot w; csrfToken := token; session := session w |}.

Definition resetCsrfToken (w : World) : World :=
  {| appRoot := appRoot w; csrfToken := VBool false; session := session w |}.

Definition tokenRequest (w : World) : Request := {|
  req_type := "POST";
  req_url := appRoot w +:+ "/user/token";
  req_data := None;
  req_contentType := Some "application/json";
  withCredentials := true;
  req_headers := ∅
|}.

Definition getCsrfToken (w : World) : Task value :=
  if negb (truthy (csrfToken w)) then
    then_ (ajax (tokenRequest w) w) (λ data w',
      let w' := setCsrfToken (data_token data) w' in
      Done w' (Resolved (data_token data)))
  else Done w (Resolved (csrfToken w)).

(** *** The [Backbone.sync] override *)

Inductive Method : Type := Create | Read | Update | Patch | Delete.

Record Options : Type := {
  opt_type : option string;
  opt_url : option string;
  opt_data : option (gmap string value);
  opt_contentType : option string;
  xhrFields_withCredentials : bool;
  beforeSend : option (gmap string value → gmap string value)
}.

(** What [sync] can be called on.  The session has no [url] of its own:
    Backbone's default raises an error for it. *)
Inductive Syncable : Type :=
  | AnEntity (e : Entity)
  | AFile (f : File)
  | ACollection (model : EntityClass)
  | ASession.

Definition model_url (model : Syncable) : option string :=
  match model with
  | AnEntity e => Some (Model.url e)
  | AFile f => Some (FileModel.url f)
  | ACollection c => Some (Collection.url c)
  | ASession => None
  end.

Definition model_toJSON (model : Syncable) : option (gmap string value) :=
  match model with
  | AnEntity e => Some (Model.toJSON e)
  | AFile f => Some (Model.toJSON (file_model f))
  | ACollection _ | ASession => None
  end.

(** [options.url || model.url()] *)
Definition url_or_model (options : Options) (model : Syncable) : option string :=
  match opt_url options with
  | Some u => if truthy (VStr u) then Some u else model_url model
  | None => model_url model
  end.

Definition methodMap (method : Method) : string :=
  match method with
  | Create => "POST"
  | Update => "PUT"
  | Patch => "PATCH"
  | Delete => "DELETE"
  | Read => "GET"
  end.

Definition writes (method : Method) : bool :=
  match method with
  | Create | Update | Patch => true
  | _ => false
  end.

(** Backbone's own [sync], kept in [_sync]: it builds the request from the
    method and the options (which win over its defaults), lets
    [beforeSend] at the fresh [jqXHR], and sends it. *)
Definition params (method : Method) (model : Syncable) (options : Options)
    (url : string) : Request :=
  let body := if writes method then model_toJSON model else None in
  {| req_type := default (methodMap method) (opt_type options);
     req_url := url;
     req_data :=
       match opt_data options with Some d => Some d | None => body end;
     req_contentType :=
       match opt_contentType options, opt_data options, body with
       | Some c, _, _ => Some c
       | None, None, Some _ => Some "application/json"
       | None, _, _ => None
       end;
     withCredentials := xhrFields_withCredentials options;
     req_headers :=
       match beforeSend options with Some hook => hook ∅ | None => ∅ end |}.

Definition _sync (method : Method) (model : Syncable) (options : Options)
    (w : World) : Task Response :=
  match url_or_model options model with
  | None => Done w Thrown
  | Some url => ajax (params method model options url) w
  end.

(** [options.url = ...; options.xhrFields.withCredentials = true] *)
Definition with_url (url : string) (options : Options) : Options := {|
  opt_type := opt_type options;
  opt_url := Some url;
  opt_data := opt_data options;
  opt_contentType := opt_contentType options;
  xhrFields_withCredentials := true;
  beforeSend := beforeSend options
|}.

(** [options.beforeSend = function (xhr) { ... }]: the token header is
    set first, then the caller's hook, if any, is called. *)
Definition with_token_header (token : value) (options : Options) : Options :=
  let _beforeSend := beforeSend options in
  {| opt_type := opt_type options;
     opt_url := opt_url options;
     opt_data := opt_data options;
     opt_contentType := opt_contentType options;
     xhrFields_withCredentials := xhrFields_withCredentials options;
     beforeSend := Some (λ xhr,
       let xhr := setRequestHeader "X-CSRF-Token" token xhr in
       match _beforeSend with
       | Some hook => hook xhr
       | None => xhr
       end) |}.

Definition sync (method : Method) (model : Syncable) (options : Options)
    (w : World) : Task Response :=
  match url_or_model options model with
  | None => Done w Thrown
  | Some url =>
      let options := with_url (appRoot w +:+ url) options in
      then_ (getCsrfToken w) (λ token w',
        let options := with_token_header token options in
        _sync method model options w')
  end.

(** *** The session *)

Module SessionModel.

(** [defaults: {loggedIn: false}] and [initialize]. *)
Definition create (userCid : positive) : Session := {|
  session_attributes := {[ "loggedIn" := VBool false ]};
  user := Model.create UserClass userCid ∅
|}.

Definition get (key : string) (w : World) : value :=
  prop (session_attributes (session w)) key.

(** Backbone's [set] on the session's own attributes. *)
Definition set (key : string) (val : value) (w : World) : World := {|
  appRoot := appRoot w;
  csrfToken := csrfToken w;
  session := {|
    session_attributes := <[key := val]> (session_attributes (session w));
    user := user (session w)
  |}
|}.

(** [self.user.set(data.user)]: with no user record the first argument
    is [undefined] or [null], and [set] returns at once. *)
Definition user_set (data_user : option (gmap string value)) (w : World)
    : World := {|
  appRoot := appRoot w;
  csrfToken := csrfToken w;
  session := {|
    session_attributes := session_attributes (session w);
    user :=
      Model.set
        match data_user with
        | Some attrs => Model.SetAttrs attrs
        | None => Model.SetNothing
        end
        (user (session w))
  |}
|}.

Definition loggedIn (w : World) : value := get "loggedIn" w.

(** The options [doPost] hands to [sync]. *)
Definition post_options (postUrl : string)
    (postData : option (gmap string value)) : Options := {|
  opt_type := Some "POST";
  opt_url := Some postUrl;
  opt_data := postData;
  opt_contentType := Some "application/json";
  xhrFields_withCredentials := false;
  beforeSend := None
|}.

Definition doPost (postUrl : string) (postData : option (gmap string value))
    (w : World) : Task Response :=
  sync Read ASession (post_options postUrl postData) w.

(** The promise resolves with the session's user model (the object itself,
    given here as it is when the promise resolves).  When the connect
    answer has no user record, reading [data.user.uid] raises a
    [TypeError]: the callback ends there, after [loggedIn] was set, and
    nothing resolves the promise. *)
Definition login (username password : value) (w : World) : Task Entity :=
  if truthy (loggedIn w) then Done w (Resolved (user (session w)))
  else
    resolving (doPost "/system/connect" None w) (λ data w,
      let w := set "loggedIn" (VBool true) w in
      match data_user data with
      | None => Done w Pending
      | Some connected =>
          if negb (loose_eq_zero (prop connected "uid")) then
            let w := user_set (data_user data) w in
            Done w (Resolved (user (session w)))
          else
            resolving
              (doPost "/user/login"
                 (Some {[ "username" := username; "password" := password ]}) w)
              (λ data w,
                let w := setCsrfToken (data_token data) w in
                let w := user_set (data_user data) w in
                Done w (Resolved (user (session w))))
      end).

Definition logout (w : World) : Task Response :=
  done_ (doPost "/user/logout" None w) (λ data w,
    let w := resetCsrfToken w in
    set "loggedIn" (VBool false) w).

End SessionModel.

(** The world a page starts in: no token fetched yet, a fresh session. *)
Definition initial (root : string) : World := {|
  appRoot := root;
  csrfToken := VUndefined;
  session := SessionModel.create 1
|}.

(** * Vocabulary of the properties *)

(** The values the wire format reads as true: a number above zero, the
    boolean [true], and the strings [1] and [true]. *)
Definition reads_as_true (v : value) : bool :=
  match v with
  | VNum n => gt0 n
  | VBool b => b
  | VStr s => bool_decide (s = "1" ∨ s = "true")
  | _ => false
  end.

(** How often a field name is listed. *)
Fixpoint occurrences (key : string) (fields : list string) : nat :=
  match fields with
  | [] => 0
  | k :: fields' =>
      ((if bool_decide (k = key) then 1 else 0) + occurrences key fields')%nat
  end.

(** What [toJSON] makes of the attribute [key] holding [v]: nothing when
    [v] is [undefined]; otherwise the integer coercion, once for each time
    [key] is listed in [integerFields], then the boolean output coercion
    when [key] is listed in [booleanFields]. *)
Definition recoerced (c : EntityClass) (key : string) (v : value) : value :=
  if bool_decide (typeof v = TUndefined) then v
  else
    let v := Nat.iter (occurrences key (integerFields c)) convertInteger v in
    if bool_decide (key ∈ booleanFields c) then convertBoolOutput v else v.

(** The same in the words of the specification: the integer coercion for
    a field listed in [integerFields], the boolean output coercion for a
    field listed in [booleanFields], whatever the value. *)
Definition recoerced_as_claimed (c : EntityClass) (key : string) (v : value)
    : value :=
  let v := if bool_decide (key ∈ integerFields c) then convertInteger v else v in
  if bool_decide (key ∈ booleanFields c) then convertBoolOutput v else v.

(** A failure among the outcomes consumed so far. *)
Definition failed (h : list outcome) : Prop := Failure ∈ h.

(** [Leaves I P h t]: run on its own from the history [h] of outcomes
    already consumed, [t] sends a request only when the history satisfies
    [I], and wherever it ends, the history, the world and the state of
    its promise satisfy [P]. *)
Inductive Leaves {A : Type} (I : list outcome → Prop)
    (P : list outcome → World → state A → Prop)
    : list outcome → Task A → Prop :=
  | Leaves_done h w p : P h w p → Leaves I P h (Done w p)
  | Leaves_ajax h w rq k :
      I h → (∀ o, Leaves I P (h ++ [o])%list (k o w)) →
      Leaves I P h (Ajax w rq k).

Definition intact (h : list outcome) : Prop := ¬ failed h.

(** What a request through [sync] started in [w0] leaves behind: the
    session and the application root are as in [w0]; it resolves only if
    nothing failed, and is rejected by a failure that is the last outcome
    consumed. *)
Definition sync_post {A : Type} (w0 : World)
    (h : list outcome) (w : World) (p : state A) : Prop :=
  session w = session w0 ∧ appRoot w = appRoot w0 ∧
  match p with
  | Resolved _ => ¬ failed h
  | Rejected => ∃ h0, h = (h0 ++ [Failure])%list ∧ ¬ failed h0
  | Pending | Thrown => False
  end.

(** A request that resolved did so with the answer consumed last. *)
Definition answered (h : list outcome) (p : state Response) : Prop :=
  match p with
  | Resolved data => ∃ h0, h = (h0 ++ [Success data])%list
  | _ => True
  end.

Definition request_post (w0 : World)
    (h : list outcome) (w : World) (p : state Response) : Prop :=
  sync_post w0 h w p ∧ answered h p.

(** Where [login] can end: resolved with the session's user, the session
    marked logged in and nothing having failed; or pending, either a
    failure being the last outcome consumed, or nothing having failed and
    the last outcome consumed being an answer without a user record,
    the session marked logged in. *)
Definition login_post (h : list outcome) (w : World) (p : state Entity)
    : Prop :=
  match p with
  | Resolved e =>
      ¬ failed h ∧ truthy (SessionModel.loggedIn w) = true
      ∧ e = user (session w)
  | Pending =>
      (∃ h0, h = (h0 ++ [Failure])%list ∧ ¬ failed h0)
      ∨ (¬ failed h
         ∧ (∃ h0 data, h = (h0 ++ [Success data])%list ∧ data_user data = None)
         ∧ SessionModel.loggedIn w = VBool true)
  | Rejected | Thrown => False
  end.

(** The request the [sync] override hands to the transport for the target
    [url] once the token is known. *)
Definition dispatched (method : Method) (model : Syncable) (options : Options)
    (url : string) (token : value) (w : World) : Request :=
  params method model
    (with_token_header token (with_url (appRoot w +:+ url) options))
    (appRoot w +:+ url).

(** The caller's [beforeSend] hook, or nothing. *)
Definition caller_hook (options : Options)
    : gmap string value → gmap string value :=
  default id (beforeSend options).

(** The outcomes a run has consumed. *)
Definition consumed {A : Type} (r : Run A) (script : list outcome)
    : list outcome := take (length (sent r)) script.

(** What [cleanInput] makes of the given value [v] of the field [key]:
    nothing when [v] is [undefined]; otherwise the integer coercion, once
    for each time [key] is listed in [integerFields], then the boolean
    input coercion when [key] is listed in [booleanFields], then the
    integer coercion once more when [key] is the id field. *)
Definition cleaned (c : EntityClass) (key : string) (v : value) : value :=
  if bool_decide (typeof v = TUndefined) then v
  else
    let v := Nat.iter (occurrences key (integerFields c)) convertInteger v in
    let v :=
      if bool_decide (key ∈ booleanFields c) then convertBoolInput v else v in
    if bool_decide (key = idKey c) then convertInteger v else v.

(** A number that is an integer or an infinity. *)
Definition integral (v : value) : Prop :=
  (∃ z, v = int z) ∨ (∃ negative, v = VNum (Inf negative)).

(** Attributes in canonical form for the class [c]: leaving [undefined]
    values aside, the id is integral, the other boolean fields are
    booleans, and the remaining integer fields are integral. *)
Definition canonical (c : EntityClass) (attrs : gmap string value) : Prop :=
  ∀ key v, attrs !! key = Some v → typeof v ≠ TUndefined →
    if bool_decide (key = idKey c) then integral v
    else if bool_decide (key ∈ booleanFields c) then ∃ b, v = VBool b
    else if bool_decide (key ∈ integerFields c) then integral v
    else True.

(** The characters that are safe in a path segment: what
    [encodeURIComponent] lets through, and the percent sign of its
    escapes. *)
Definition path_safe (c : ascii) : bool :=
  unreserved c || bool_decide (c = "%"%char).

(** Calls that overlap: the request a task is waiting on, the world it
    has left, and the task resumed with an outcome on the world as it is
    by then. *)
Definition awaiting {A : Type} (t : Task A) : option Request :=
  match t with
  | Ajax _ rq _ => Some rq
  | Done _ _ => None
  end.

Definition world_of {A : Type} (t : Task A) : World :=
  match t with
  | Ajax w _ _ => w
  | Done w _ => w
  end.

Definition resume {A : Type} (t : Task A) (o : outcome) (w : World) : Task A :=
  match t with
  | Ajax _ _ k => k o w
  | Done _ _ => t
  end.

(** The request [doPost] hands to the transport, written out. *)
Definition post_request (w : World) (postUrl : string)
    (postData : option (gmap string value)) (token : value) : Request := {|
  req_type := "POST";
  req_url := appRoot w +:+ postUrl;
  req_data := postData;
  req_contentType := Some "application/json";
  withCredentials := true;
  req_headers := {[ "X-CSRF-Token" := token ]}
|}.

(** The token a call through [sync] started in [w] sends: the cached
    one, or the one the token request, answered by [tok], brings. *)
Definition token_in_use (w : World) (tok : Response) : value :=
  if truthy (csrfToken w) then csrfToken w else data_token tok.

(** The outcomes and the requests of the token step of such a call. *)
Definition token_outcomes (w : World) (tok : Response) : list outcome :=
  if truthy (csrfToken w) then [] else [Success tok].

Definition token_requests (w : World) : list Request :=
  if truthy (csrfToken w) then [] else [tokenRequest w].

(** U+00A0, the no-break space, and a run of nines. *)
Definition NBSP : string := String (ascii_of_nat 194) (String (ascii_of_nat 160) "").

Definition nines (n : nat) : string := str (repeat "9"%char n).

(** Decimal digits and their values. *)
Definition is_dec (c : ascii) : bool :=
  let n := byte c in (48 <=? n) && (n <=? 57).
Definition dec_val (c : ascii) : Z := byte c - 48.

(** Where [logout] started in [w0] can end: resolved, nothing having
    failed, with the token cache reset, the session marked logged out
    and its user model untouched; or rejected by a failure, the last
    outcome consumed, with the session as it was. *)
Definition logout_post (w0 : World) (h : list outcome) (w : World)
    (p : state Response) : Prop :=
  match p with
  | Resolved _ =>
      ¬ failed h ∧ csrfToken w = VBool false
      ∧ SessionModel.loggedIn w = VBool false
      ∧ user (session w) = user (session w0)
  | Rejected =>
      (∃ h0, h = (h0 ++ [Failure])%list ∧ ¬ failed h0)
      ∧ session w = session w0
  | Pending | Thrown => False
  end.

(** * Properties *)

(** ** The embedding on concrete inputs *)

Example parseInt_examples :
  parseInt (VStr "42") = Dec 42 0
  ∧ parseInt (VStr "abc") = NaN
  ∧ parseInt (VStr " -7px") = Dec (-7) 0
  ∧ parseInt (VStr "0x1F") = Dec 31 0
  ∧ parseInt (VNum (Dec 37 (-1))) = Dec 3 0
  ∧ parseInt (VNum (Dec 5 (-7))) = Dec 5 0
  ∧ parseInt VNull = NaN
  ∧ parseInt (VStr (NBSP +:+ "42")) = Dec 42 0
  ∧ parseInt (VStr "9007199254740993") = Dec 9007199254740992 0
  ∧ parseInt (VNum (Dec 999999999999999999999 0)) = Dec 1 0
  ∧ parseInt (VStr (nines 310)) = Inf false.
Proof. vm_compute. repeat split. Qed.

Example numberToString_examples :
  numberToString (Dec 7 0) = "7"
  ∧ numberToString (Dec (-1200) 0) = "-1200"
  ∧ numberToString (Dec 123456 (-2)) = "1234.56"
  ∧ numberToString (Dec 5 (-7)) = "5e-7"
  ∧ numberToString (Dec 1 21) = "1e+21"
  ∧ numberToString (Dec 1 (-1)) = "0.1"
  ∧ numberToString (Dec 3 (-1)) = "0.3"
  ∧ numberToString (Dec 18446744073709551616 0) = "18446744073709552000"
  ∧ numberToString (Dec 999999999999999999999 0) = "1e+21"
  ∧ numberToString (Dec 1 (-400)) = "0"
  ∧ numberToString (Dec 1 400) = "Infinity".
Proof. vm_compute. repeat split. Qed.

Example convertInteger_examples :
  convertInteger (VBool true) = int 1
  ∧ convertInteger (VBool false) = int 0
  ∧ convertInteger (VStr "abc") = int 0
  ∧ convertInteger (VStr "42") = int 42
  ∧ convertInteger VUndefined = int 0
  ∧ convertInteger (VStr (nines 310)) = VNum (Inf false)
  ∧ convertInteger (VNum (Inf false)) = int 0.
Proof. vm_compute. repeat split. Qed.

Example convertBoolInput_examples :
  convertBoolInput (int 0) = VBool false
  ∧ convertBoolInput (int 1) = VBool true
  ∧ convertBoolInput (VStr "abc") = VBool false
  ∧ convertBoolInput (VBool true) = VBool true.
Proof. repeat split. Qed.

Example loose_eq_zero_examples :
  loose_eq_zero (int 0) = true
  ∧ loose_eq_zero (VStr "0") = true
  ∧ loose_eq_zero (VStr "1") = false
  ∧ loose_eq_zero VUndefined = false
  ∧ loose_eq_zero (VStr "") = true
  ∧ loose_eq_zero (VStr "1e-400") = true
  ∧ loose_eq_zero (VStr "0x0") = true
  ∧ loose_eq_zero (VStr "1e400") = false.
Proof. vm_compute. repeat split. Qed.

Example login_examples :
  let tok := {| data_token := VStr "abc"; data_user := None |} in
  let r := run (SessionModel.login (VStr "alice") (VStr "secret") (initial ""))
             [Success tok;
              Success {| data_token := VUndefined; data_user := None |}] in
  result r = Some Pending
  ∧ SessionModel.loggedIn (final r) = VBool true
  ∧ map req_url (sent r) = ["/user/token"; "/system/connect"].
Proof. vm_compute. repeat split. Qed.

Example node_url_examples :
  Model.url (Model.create NodeClass 1 ∅) = "/node"
  ∧ Model.url (Model.set (Model.SetKey "nid" (VStr "42"))
                 (Model.create NodeClass 1 ∅)) = "/node/42"
  ∧ Collection.url NodeClass = "/node".
Proof. repeat split. Qed.

Example node_toJSON_example :
  Model.toJSON
    {| constructor := NodeClass; cid := 1;
       attributes :=
         {[ "nid" := int 42; "title" := VStr "Hello"; "status" := VStr "1";
            "sticky" := VBool false; "uid" := VStr "12";
            "rdf_mapping" := VObj 1 ]} |}
  = {[ "nid" := int 42; "title" := VStr "Hello"; "status" := VBool true;
       "sticky" := VNull; "uid" := int 12 ]}.
Proof. vm_compute. reflexivity. Qed.

(** ** Numbers and their decimal rendering *)

Lemma normalize_safe (z : Z) :
  Z.abs z < 2 ^ 53 → normalize (Dec z 0) = Dec z 0.
Proof.
  intros Hz. unfold normalize.
  by rewrite Z.eqb_refl, (proj2 (Z.ltb_lt _ _) Hz).
Qed.

Lemma nearest64_int (a : Z) : 2 ^ 53 ≤ a → 0 ≤ (nearest64 a 0).2.
Proof.
  intros Ha. unfold nearest64.
  change (0 <=? 0) with true. cbv iota. cbv zeta.
  change (10 ^ 0) with 1. rewrite Z.mul_1_r.
  assert (53 ≤ Z.log2 a).
  { rewrite <- (Z.log2_pow2 53) by lia. by apply Z.log2_le_mono. }
  change (Z.log2 1) with 0. cbn [snd].
  destruct (2 ^ 52 <=? _); lia.
Qed.

(** Reading an integer numeral gives an integer or an infinity. *)
Lemma normalize_int (z : Z) :
  (∃ b, normalize (Dec z 0) = Inf b) ∨ (∃ z', normalize (Dec z 0) = Dec z' 0).
Proof.
  unfold normalize. rewrite Z.eqb_refl. cbn [andb].
  destruct (Z.abs z <? 2 ^ 53) eqn:Hsafe; [by right; eexists|].
  apply Z.ltb_ge in Hsafe.
  destruct (z =? 0); [by right; eexists|]. cbv zeta.
  destruct (310 <? _); [by left; eexists|].
  destruct (_ <? -330); [by right; eexists|].
  assert (He2 := nearest64_int (Z.abs z) Hsafe).
  destruct (nearest64 (Z.abs z) 0) as [q e2]. cbn [snd] in He2.
  rewrite (proj2 (Z.leb_le 0 e2)) by done.
  destruct (2 ^ 1024 <=? _); [by left; eexists|].
  destruct (q =? 0); by right; eexists.
Qed.

Lemma parseIntChars_cases cs :
  parseIntChars cs = NaN ∨ (∃ b, parseIntChars cs = Inf b)
  ∨ (∃ z, parseIntChars cs = Dec z 0).
Proof.
  unfold parseIntChars.
  repeat match goal with
  | |- context [let '(_, _) := ?x in _] => destruct x
  end.
  match goal with |- context [match ?l with [] => _ | _ => _ end] =>
    destruct l end; [by left|right; apply normalize_int].
Qed.

Lemma is_dec_cases c : is_dec c = true →
  c ∈ ["0"; "1"; "2"; "3"; "4"; "5"; "6"; "7"; "8"; "9"]%char.
Proof.
  destruct c as [[] [] [] [] [] [] [] []]; try discriminate; intros _;
    apply (bool_decide_unpack _); by vm_compute.
Qed.

Lemma digit_in_dec c : is_dec c = true → digit_in 10 c = Some (dec_val c).
Proof.
  intros H%is_dec_cases.
  repeat (apply elem_of_cons in H as [->|H]; [reflexivity|]).
  by apply elem_of_nil in H.
Qed.

Lemma span_digits_dec cs :
  Forall (λ c, is_dec c = true) cs → span_digits 10 cs = (map dec_val cs, []).
Proof.
  induction 1 as [|c cs Hc _ IH]; simpl; [done|].
  by rewrite digit_in_dec, IH.
Qed.

Lemma drop_white_cons c cs :
  white_length (c :: cs) = 0%nat → drop_white (c :: cs) = c :: cs.
Proof.
  intros H. unfold drop_white. simpl length. cbn [drop_white_fuel].
  by rewrite H.
Qed.

Lemma is_dec_not_white c cs : is_dec c = true → white_length (c :: cs) = 0%nat.
Proof.
  intros H%is_dec_cases.
  repeat (apply elem_of_cons in H as [->|H]; [reflexivity|]).
  by apply elem_of_nil in H.
Qed.

Lemma parseIntChars_dec cs :
  cs ≠ [] → Forall (λ c, is_dec c = true) cs →
  parseIntChars cs = normalize (Dec (digits_value 10 (map dec_val cs)) 0)
  ∧ parseIntChars ("-"%char :: cs)
    = normalize (Dec (- digits_value 10 (map dec_val cs)) 0).
Proof.
  intros Hne Hcs.
  assert (Hspan := span_digits_dec cs Hcs).
  destruct cs as [|c1 cs]; [done|]. clear Hne.
  apply Forall_cons in Hcs as [Hc1 Hcs].
  unfold parseIntChars.
  rewrite (drop_white_cons "-") by reflexivity.
  rewrite (drop_white_cons c1) by by apply is_dec_not_white.
  apply is_dec_cases in Hc1.
  destruct cs as [|c2 cs].
  - repeat (apply elem_of_cons in Hc1 as [->|Hc1]; [by vm_compute|]).
    by apply elem_of_nil in Hc1.
  - apply Forall_cons in Hcs as [Hc2 Hcs]. apply is_dec_cases in Hc2.
    repeat (apply elem_of_cons in Hc1 as [->|Hc1];
      [|]).
    all: try by apply elem_of_nil in Hc1.
    all: try (cbn -[span_digits digits_value normalize]; rewrite Hspan; done).
    all: repeat (apply elem_of_cons in Hc2 as [->|Hc2];
      [cbn -[span_digits digits_value normalize]; rewrite Hspan; done|]).
    all: by apply elem_of_nil in Hc2.
Qed.

Lemma pretty_N_char_dec m :
  (m < 10)%N →
  is_dec (pretty_N_char m) = true ∧ dec_val (pretty_N_char m) = Z.of_N m.
Proof.
  intros Hm.
  assert (m = 0 ∨ m = 1 ∨ m = 2 ∨ m = 3 ∨ m = 4 ∨ m = 5 ∨ m = 6 ∨ m = 7
          ∨ m = 8 ∨ m = 9)%N as Hcases by lia.
  repeat (destruct Hcases as [->|Hcases]; [by vm_compute|]).
  by subst m.
Qed.

Lemma chars_pretty_N_go (x : N) (s : string) :
  ∃ dx,
    chars (pretty_N_go x s) = (dx ++ chars s)%list
    ∧ Forall (λ c, is_dec c = true) dx
    ∧ (∀ acc, fold_left (λ a d, a * 10 + d) (map dec_val dx) acc
              = acc * 10 ^ Z.of_nat (length dx) + Z.of_N x)
    ∧ (x = 0%N → dx = [])
    ∧ ((0 < x)%N → 10 ^ (Z.of_nat (length dx) - 1) ≤ Z.of_N x ∧ dx ≠ []).
Proof.
  revert s. induction (N.lt_wf_0 x) as [x _ IH]; intros s.
  destruct (decide (x = 0%N)) as [->|Hx].
  { exists []. rewrite pretty_N_go_0. repeat split; try done; try lia.
    intros acc. simpl. lia. }
  assert (0 < x)%N as Hpos by lia.
  rewrite pretty_N_go_step by done.
  destruct (IH (x `div` 10)%N (N.div_lt x 10 Hpos eq_refl)
              (String (pretty_N_char (x `mod` 10)) s))
    as (dx & Hchars & Hdec & Hval & Hzero & Hlow).
  destruct (pretty_N_char_dec (x `mod` 10)%N) as [Hc Hv];
    [by apply N.mod_lt|].
  exists (dx ++ [pretty_N_char (x `mod` 10)])%list.
  split; [by rewrite Hchars, <- app_assoc|].
  split; [apply Forall_app; split; [done|by repeat constructor]|].
  assert (Hdiv : Z.of_N x = 10 * Z.of_N (x `div` 10) + Z.of_N (x `mod` 10)).
  { rewrite N2Z.inj_div, N2Z.inj_mod. apply Z.div_mod. lia. }
  split; [|split; [intros ->; lia|intros _; split]].
  - intros acc. rewrite map_app, fold_left_app, Hval. simpl.
    rewrite Hv, length_app. simpl length.
    rewrite Nat2Z.inj_add, Z.pow_add_r by lia.
    change (10 ^ Z.of_nat 1) with 10. lia.
  - rewrite length_app. simpl length.
    replace (Z.of_nat (length dx + 1) - 1) with (Z.of_nat (length dx)) by lia.
    destruct (decide (x `div` 10 = 0)%N) as [Hd|Hd].
    + rewrite (Hzero Hd). simpl. lia.
    + destruct Hlow as [Hlow Hne]; [by apply N.neq_0_lt_0|].
      assert (0 ≤ Z.of_nat (length dx) - 1)
        by (destruct dx; [done|simpl length; lia]).
      replace (Z.of_nat (length dx)) with (Z.of_nat (length dx) - 1 + 1)
        at 1 by lia.
      rewrite Z.pow_add_r by lia.
      change (10 ^ 1) with 10.
      assert (H0 : 0 ≤ Z.of_N (x `mod` 10)) by apply N2Z.is_nonneg.
      revert Hlow Hdiv H0.
      generalize (10 ^ (Z.of_nat (length dx) - 1)), (Z.of_N (x `div` 10)),
        (Z.of_N (x `mod` 10)), (Z.of_N x).
      intros; lia.
  - by destruct dx.
Qed.

Lemma chars_pretty_pos (p : positive) :
  ∃ dx, chars (pretty (Z.pos p)) = dx ∧ dx ≠ []
    ∧ Forall (λ c, is_dec c = true) dx
    ∧ digits_value 10 (map dec_val dx) = Z.pos p
    ∧ 10 ^ (Z.of_nat (length dx) - 1) ≤ Z.pos p.
Proof.
  destruct (chars_pretty_N_go (N.pos p) "")
    as (dx & Hchars & Hdec & Hval & _ & Hlow).
  destruct Hlow as [Hlow Hne]; [done|].
  exists dx. change (chars "") with (@nil ascii) in Hchars.
  rewrite app_nil_r in Hchars.
  split; [exact Hchars|]. split; [done|]. split; [done|]. split; [|exact Hlow].
  unfold digits_value. rewrite Hval. simpl. lia.
Qed.

Lemma drop_zeros_nonzero c l : c ≠ "0"%char → drop_zeros (c :: l) = c :: l.
Proof. destruct c as [[] [] [] [] [] [] [] []]; done. Qed.

Lemma drop_zeros_split l :
  ∃ j, l = (repeat "0"%char j ++ drop_zeros l)%list.
Proof.
  induction l as [|c l [j IH]]; [by exists 0%nat|].
  destruct (decide (c = "0"%char)) as [->|Hc].
  - exists (S j). simpl. by rewrite <- IH.
  - exists 0%nat. by rewrite drop_zeros_nonzero.
Qed.

Lemma restore_zeros (l : list ascii) :
  let ds := rev (drop_zeros (rev l)) in
  (length ds ≤ length l)%nat
  ∧ (ds ++ repeat "0"%char (length l - length ds))%list = l.
Proof.
  intros ds. subst ds. destruct (drop_zeros_split (rev l)) as [j Hj].
  assert (Hl : l = (rev (drop_zeros (rev l)) ++ repeat "0"%char j)%list).
  { rewrite <- (rev_involutive l) at 1. rewrite Hj at 1.
    by rewrite rev_app_distr, rev_repeat. }
  assert (Hlen : length l = (length (rev (drop_zeros (rev l))) + j)%nat).
  { rewrite Hl at 1. by rewrite length_app, repeat_length. }
  split; [lia|].
  replace (length l - length (rev (drop_zeros (rev l))))%nat with j by lia.
  by rewrite <- Hl.
Qed.

(** Up to 21 digits an integer is laid out in full. *)
Lemma formatDigits_pos (p : positive) :
  Z.pos p < 10 ^ 21 →
  formatDigits (Z.pos p) 0 = pretty (Z.pos p)
  ∧ formatDigits (Z.neg p) 0 = pretty (Z.neg p).
Proof.
  intros Hp.
  destruct (chars_pretty_pos p) as (dx & Hchars & Hne & Hdec & _ & Hlow).
  assert (Hlen : (length dx ≤ 21)%nat).
  { destruct (decide (length dx ≤ 21)%nat) as [|Hbig]; [done|exfalso].
    assert (10 ^ 21 ≤ 10 ^ (Z.of_nat (length dx) - 1))
      by (apply Z.pow_le_mono_r; lia).
    lia. }
  destruct (restore_zeros dx) as [Hle Hrestore].
  unfold formatDigits.
  change (Z.abs (Z.pos p)) with (Z.pos p).
  change (Z.abs (Z.neg p)) with (Z.pos p).
  change (Z.pos p =? 0) with false. change (Z.neg p =? 0) with false.
  change (Z.pos p <? 0) with false. change (Z.neg p <? 0) with true.
  cbv zeta. rewrite Hchars.
  set (ds := rev (drop_zeros (rev dx))) in *.
  replace (0 + Z.of_nat (length dx) - Z.of_nat (length ds))
    with (Z.of_nat (length dx - length ds)) by lia.
  replace (Z.of_nat (length ds) + Z.of_nat (length dx - length ds))
    with (Z.of_nat (length dx)) by lia.
  rewrite (proj2 (Z.leb_le (Z.of_nat (length ds)) (Z.of_nat (length dx))))
    by lia.
  rewrite (proj2 (Z.leb_le (Z.of_nat (length dx)) 21)) by lia.
  cbn [andb]. unfold zeros.
  replace (Z.to_nat (Z.of_nat (length dx) - Z.of_nat (length ds)))
    with (length dx - length ds)%nat by lia.
  rewrite Hrestore. rewrite <- Hchars. unfold str, chars. simpl app.
  split; [apply string_of_list_ascii_of_string|].
  change (String "-" (string_of_list_ascii
            (list_ascii_of_string (pretty (Z.pos p)))) = pretty (Z.neg p)).
  by rewrite string_of_list_ascii_of_string.
Qed.

Lemma numberToString_int (z : Z) :
  Z.abs z < 2 ^ 53 → numberToString (Dec z 0) = pretty z.
Proof.
  intros Hz. unfold numberToString, finiteToString.
  rewrite normalize_safe by done.
  rewrite Z.eqb_refl, (proj2 (Z.ltb_lt _ _) Hz). cbn [andb].
  destruct z as [|p|p]; [reflexivity|..]; apply formatDigits_pos; lia.
Qed.

(** The decimal numeral of an integer reads back as that integer, as a
    Number: itself below [2^53] in magnitude, rounded beyond. *)
Lemma parseIntChars_pretty (z : Z) :
  parseIntChars (chars (pretty z)) = normalize (Dec z 0).
Proof.
  destruct z as [|p|p]; [reflexivity|..];
    destruct (chars_pretty_pos p) as (dx & Hchars & Hne & Hdec & Hval & _);
    destruct (parseIntChars_dec dx Hne Hdec) as [Hpos Hneg].
  - by rewrite Hchars, Hpos, Hval.
  - change (chars (pretty (Z.neg p)))
      with ("-"%char :: chars (pretty (Z.pos p))).
    by rewrite Hchars, Hneg, Hval.
Qed.

Lemma parseInt_int (z : Z) :
  Z.abs z < 2 ^ 53 → parseInt (int z) = Dec z 0.
Proof.
  intros Hz. unfold parseInt, int, toString.
  rewrite numberToString_int, parseIntChars_pretty by done.
  by apply normalize_safe.
Qed.

(** ** Boolean output coercion *)

Lemma convertBoolOutput_cases v :
  convertBoolOutput v = VBool true ∨ convertBoolOutput v = VNull.
Proof.
  destruct v as [| |[]|n|s|r]; simpl; auto.
  - destruct (gt0 n); auto.
  - case_bool_decide; auto.
Qed.

Lemma convertBoolOutput_idemp v :
  convertBoolOutput (convertBoolOutput v) = convertBoolOutput v.
Proof. destruct (convertBoolOutput_cases v) as [-> | ->]; reflexivity. Qed.

Lemma convertBoolOutput_defined v : typeof (convertBoolOutput v) ≠ TUndefined.
Proof. destruct (convertBoolOutput_cases v) as [-> | ->]; discriminate. Qed.

Lemma convertInteger_defined v : typeof (convertInteger v) ≠ TUndefined.
Proof.
  destruct v as [| |[]|n|s|r]; unfold convertInteger;
    try discriminate; destruct (isNaN _); discriminate.
Qed.

(** C3: [convertBoolOutput] sends a number above zero, [true], and the
    strings [1] and [true] to [true], and every other value to [null]; it
    never yields [false].  In particular [false], [0], the string [0] and
    [null] give [null], and [1], the string [1] and the string [true]
    give [true]. *)
Theorem convertBoolOutput_true_or_absent :
  (∀ v, convertBoolOutput v = if reads_as_true v then VBool true else VNull)
  ∧ (∀ v, convertBoolOutput v ≠ VBool false)
  ∧ convertBoolOutput (VBool false) = VNull
  ∧ convertBoolOutput (int 0) = VNull
  ∧ convertBoolOutput (VStr "0") = VNull
  ∧ convertBoolOutput VNull = VNull
  ∧ convertBoolOutput (int 1) = VBool true
  ∧ convertBoolOutput (VBool true) = VBool true
  ∧ convertBoolOutput (VStr "1") = VBool true
  ∧ convertBoolOutput (VStr "true") = VBool true.
Proof.
  split; [|split; [|repeat split]].
  - intros [| |[]|n|s|r]; simpl; try reflexivity.
    erewrite bool_decide_ext; [reflexivity|].
    split; (intros [H|H]; [left|right]; congruence).
  - intros v. destruct (convertBoolOutput_cases v) as [-> | ->]; discriminate.
Qed.

(** ** Resource paths *)

Lemma append_assoc (a b c : string) : (a +:+ b) +:+ c = a +:+ (b +:+ c).
Proof.
  induction a as [|x a IH]; [reflexivity|].
  change (String x ((a +:+ b) +:+ c) = String x (a +:+ (b +:+ c))).
  by rewrite IH.
Qed.

(** C2, as the code has it: a file model made with the prototype's
    [fileContents] and [imageStyles] that is not new appends
    [file_contents=0] and [image_styles=1] to its id-qualified path; with
    identity [7] the path is [/file/7?file_contents=0&image_styles=1]. *)
Theorem file_url_query (id : positive) (attrs : gmap string value) :
  let f := FileModel.create id attrs in
  Model.isNew (file_model f) = false →
  FileModel.url f =
    "/file/" +:+ encodeURIComponent (toString (Model.get (file_model f) "fid"))
      +:+ "?file_contents=0&image_styles=1".
Proof.
  intros f Hnew. unfold FileModel.url, Model.url. rewrite Hnew.
  change (entityType (constructor (file_model f))) with "file".
  change (idKey (constructor (file_model f))) with "fid".
  change (fileContents f) with (int 0). change (imageStyles f) with (int 1).
  replace (toString (convertInteger (int 0))) with "0" by by vm_compute.
  replace (toString (convertInteger (int 1))) with "1" by by vm_compute.
  generalize (encodeURIComponent (toString (Model.get (file_model f) "fid"))).
  intros segment. rewrite !append_assoc. reflexivity.
Qed.

Lemma file_url_query_witness :
  FileModel.url (FileModel.create 1 {[ "fid" := int 7 ]}) =
    "/file/7?file_contents=0&image_styles=1".
Proof.
  exact (file_url_query 1 {[ "fid" := int 7 ]} eq_refl).
Defined.

(** C2 as stated fails: the path of the file model with identity [7] does
    not end in [image_styles=0]. *)
Lemma file_url_image_styles_not_zero :
  ¬ (∀ f : File, Model.isNew (file_model f) = false →
        FileModel.url f =
          Model.url (file_model f) +:+ "?file_contents=0&image_styles=0")
  ∧ FileModel.url (FileModel.create 1 {[ "fid" := int 7 ]})
      ≠ "/file/7?file_contents=0&image_styles=0".
Proof.
  split.
  - intros H. specialize (H (FileModel.create 1 {[ "fid" := int 7 ]}) eq_refl).
    vm_compute in H. discriminate.
  - vm_compute. discriminate.
Qed.

(** ** Serialisation *)

Section coerce_field.
Variable f : value → value.
Hypothesis f_defined : ∀ v, typeof (f v) ≠ TUndefined.

Lemma coerce_field_lookup_ne (values : gmap string value) (k key : string) :
  k ≠ key → Model.coerce_field f values k !! key = values !! key.
Proof.
  intros Hne. unfold Model.coerce_field.
  case_bool_decide; [by rewrite lookup_insert_ne | done].
Qed.

Lemma coerce_field_lookup_eq (values : gmap string value) (key : string) :
  Model.coerce_field f values key !! key =
    (λ v, if bool_decide (typeof v = TUndefined) then v else f v)
      <$> values !! key.
Proof.
  unfold Model.coerce_field, prop.
  destruct (values !! key) as [v|] eqn:Hv; simpl.
  - repeat case_bool_decide; try congruence; by rewrite ?lookup_insert_eq.
  - repeat case_bool_decide; done.
Qed.

Lemma iter_defined (n : nat) (v : value) :
  typeof v ≠ TUndefined → typeof (Nat.iter n f v) ≠ TUndefined.
Proof. destruct n; simpl; auto. Qed.

Lemma foldl_coerce_field_lookup (fields : list string)
    (values : gmap string value) (key : string) :
  foldl (Model.coerce_field f) values fields !! key =
    (λ v, if bool_decide (typeof v = TUndefined) then v
          else Nat.iter (occurrences key fields) f v) <$> values !! key.
Proof.
  revert values. induction fields as [|k fields IH]; intros values; simpl.
  - destruct (values !! key) as [v|]; simpl; [|done].
    by destruct (bool_decide _).
  - rewrite IH. destruct (decide (k = key)) as [->|Hne].
    + rewrite coerce_field_lookup_eq, bool_decide_true by done.
      destruct (values !! key) as [v|]; simpl; [|done]. f_equal.
      destruct (bool_decide (typeof v = TUndefined)) eqn:Hv; simpl.
      * by rewrite Hv.
      * rewrite bool_decide_false by apply f_defined.
        symmetry. apply (Nat.iter_succ_r _ f v).
    + rewrite coerce_field_lookup_ne, bool_decide_false by done. done.
Qed.
End coerce_field.

Lemma occurrences_zero (key : string) (fields : list string) :
  occurrences key fields = 0%nat ↔ key ∉ fields.
Proof.
  induction fields as [|k fields IH]; simpl.
  - split; [intros _; apply not_elem_of_nil | done].
  - rewrite not_elem_of_cons. case_bool_decide; simpl.
    + split; [discriminate | intros [? _]; congruence].
    + rewrite IH. split; [intros; split; congruence | tauto].
Qed.

Lemma iter_convertBoolOutput (key : string) (fields : list string) (v : value) :
  Nat.iter (occurrences key fields) convertBoolOutput v =
    if bool_decide (key ∈ fields) then convertBoolOutput v else v.
Proof.
  case_bool_decide as Hin.
  - destruct (occurrences key fields) as [|n] eqn:Hn.
    + apply occurrences_zero in Hn. contradiction.
    + clear Hn. induction n as [|n IHn]; [done|].
      change (convertBoolOutput (Nat.iter (S n) convertBoolOutput v)
              = convertBoolOutput v).
      rewrite IHn. apply convertBoolOutput_idemp.
  - apply occurrences_zero in Hin. by rewrite Hin.
Qed.

Lemma toJSON_lookup (e : Entity) (key : string) :
  Model.toJSON e !! key =
    if bool_decide (key = "rdf_mapping") then None
    else recoerced (constructor e) key <$> attributes e !! key.
Proof.
  unfold Model.toJSON. case_bool_decide as Hk.
  - subst key. apply lookup_delete_eq.
  - rewrite lookup_delete_ne by done.
    rewrite (foldl_coerce_field_lookup _ convertBoolOutput_defined).
    rewrite (foldl_coerce_field_lookup _ convertInteger_defined).
    destruct (attributes e !! key) as [v|]; simpl; [|done]. f_equal.
    unfold recoerced.
    destruct (bool_decide (typeof v = TUndefined)) eqn:Hv; simpl.
    + by rewrite Hv.
    + apply bool_decide_eq_false in Hv.
      rewrite bool_decide_false
        by (apply iter_defined; [apply convertInteger_defined | done]).
      apply iter_convertBoolOutput.
Qed.

Lemma reads_as_true_spec (v : value) :
  convertBoolOutput v = if reads_as_true v then VBool true else VNull.
Proof.
  destruct v as [| |[]|n|s|r]; simpl; try reflexivity.
  erewrite bool_decide_ext; [reflexivity|].
  split; (intros [H|H]; [left|right]; congruence).
Qed.

(** What the integer coercion makes of a value. *)
Lemma convertInteger_spec (v : value) :
  ∃ n, convertInteger v = VNum n ∧ isNaN n = false
    ∧ (∀ b, v = VBool b → n = Dec (if b then 1 else 0) 0)
    ∧ (typeof v ≠ TBoolean →
       n = if isNaN (parseInt v) then Dec 0 0 else parseInt v)
    ∧ (∀ z, Z.abs z < 2 ^ 53 → v = int z ∨ v = VStr (pretty z) → n = Dec z 0).
Proof.
  destruct (decide (typeof v = TBoolean)) as [Hb|Hb].
  { destruct v as [| |b|n|s|r]; try discriminate.
    exists (Dec (if b then 1 else 0) 0). split; [by destruct b|].
    split; [done|]. split; [by intros b' [= <-]|]. split; [done|].
    by intros z _ [?|?]. }
  exists (if isNaN (parseInt v) then Dec 0 0 else parseInt v).
  split; [|split; [|split; [|split]]].
  - destruct v as [| |b|n|s|r]; try done; unfold convertInteger, int;
      by destruct (isNaN _).
  - by destruct (isNaN (parseInt v)) eqn:Hn.
  - by intros b ->.
  - done.
  - intros z Hz [->| ->].
    + by rewrite parseInt_int.
    + unfold parseInt, toString.
      by rewrite parseIntChars_pretty, normalize_safe.
Qed.

(** C4, as the code has it: [toJSON] returns every attribute except
    [rdf_mapping].  An attribute holding [undefined] is returned as it
    is; any other has the integer coercion applied, once for each time
    its name is listed in [integerFields], and then the boolean output
    coercion if its name is listed in [booleanFields].  So a field listed
    in [booleanFields] only comes out as [true] or [null], and a field
    listed once in [integerFields] only comes out as a number that is not
    [NaN]: [1] or [0] for a boolean, what [parseInt] reads otherwise and
    [0] where it reads nothing; an integer below [2^53] in magnitude,
    or its decimal numeral, comes out as that integer.  The key
    [rdf_mapping] is never in the result. *)
Theorem toJSON_recoerces_and_drops_rdf_mapping (e : Entity) :
  let c := constructor e in
  (∀ key, Model.toJSON e !! key =
     if bool_decide (key = "rdf_mapping") then None
     else recoerced c key <$> attributes e !! key)
  ∧ dom (Model.toJSON e) = dom (attributes e) ∖ {[ "rdf_mapping" ]}
  ∧ Model.toJSON e !! "rdf_mapping" = None
  ∧ (∀ key v, key ≠ "rdf_mapping" → attributes e !! key = Some v →
       (typeof v = TUndefined → Model.toJSON e !! key = Some v)
       ∧ (typeof v ≠ TUndefined →
          (occurrences key (integerFields c) ≤ 1)%nat →
          Model.toJSON e !! key = Some (recoerced_as_claimed c key v))
       ∧ (typeof v ≠ TUndefined →
          key ∈ booleanFields c → key ∉ integerFields c →
          Model.toJSON e !! key =
            Some (if reads_as_true v then VBool true else VNull))
       ∧ (typeof v ≠ TUndefined →
          key ∉ booleanFields c → occurrences key (integerFields c) = 1%nat →
          ∃ n, Model.toJSON e !! key = Some (VNum n) ∧ isNaN n = false
            ∧ (∀ b, v = VBool b → n = Dec (if b then 1 else 0) 0)
            ∧ (typeof v ≠ TBoolean →
               n = if isNaN (parseInt v) then Dec 0 0 else parseInt v)
            ∧ (∀ z, Z.abs z < 2 ^ 53 →
                 v = int z ∨ v = VStr (pretty z) → n = Dec z 0))).
Proof.
  intros c. assert (Hlookup := toJSON_lookup e). fold c in Hlookup.
  split; [exact Hlookup|]. split; [|split; [apply lookup_delete_eq|]].
  { apply set_eq. intros key.
    rewrite elem_of_difference, !elem_of_dom, Hlookup, not_elem_of_singleton.
    case_bool_decide as Hk.
    - split; [by intros [] | tauto].
    - rewrite fmap_is_Some. tauto. }
  intros key v Hkey Hv. rewrite Hlookup, bool_decide_false, Hv by done.
  simpl. unfold recoerced. split; [|split; [|split]].
  - intros Hundef. by rewrite bool_decide_true.
  - intros Hdef Hocc. rewrite bool_decide_false by done. f_equal.
    unfold recoerced_as_claimed.
    destruct (occurrences key (integerFields c)) as [|[|n]] eqn:Hn; [| |lia].
    + apply occurrences_zero in Hn.
      by rewrite (bool_decide_false (key ∈ integerFields c)) by done.
    + rewrite (bool_decide_true (key ∈ integerFields c)); [done|].
      destruct (decide (key ∈ integerFields c)) as [|Hnot]; [done|].
      apply occurrences_zero in Hnot. congruence.
  - intros Hdef Hbool Hint. rewrite bool_decide_false by done.
    apply occurrences_zero in Hint. rewrite Hint. simpl.
    rewrite bool_decide_true by done. f_equal. apply reads_as_true_spec.
  - intros Hdef Hbool Hocc. rewrite bool_decide_false by done.
    rewrite Hocc. simpl. rewrite bool_decide_false by done.
    destruct (convertInteger_spec v) as (n & -> & Hn). by exists n.
Qed.

Lemma toJSON_recoerces_and_drops_rdf_mapping_witness :
  let e := {| constructor := NodeClass; cid := 1;
              attributes := {[ "uid" := VStr "12"; "status" := VStr "1";
                               "sticky" := int 0 ]} |} in
  Model.toJSON e !! "uid" = Some (int 12)
  ∧ Model.toJSON e !! "status" = Some (VBool true)
  ∧ Model.toJSON e !! "sticky" = Some VNull.
Proof.
  intros e.
  destruct (toJSON_recoerces_and_drops_rdf_mapping e) as (_ & _ & _ & H).
  assert (Hin : ∀ key fields, bool_decide (key ∈ fields) = true →
            (key : string) ∈ (fields : list string))
    by (intros key fields; apply bool_decide_eq_true).
  assert (Hout : ∀ key fields, bool_decide (key ∈ fields) = false →
            (key : string) ∉ (fields : list string))
    by (intros key fields; apply bool_decide_eq_false).
  split; [|split].
  - destruct (H "uid" (VStr "12")) as (_ & _ & _ & Huid);
      [discriminate | reflexivity |].
    destruct Huid as (n & Hn & _ & _ & _ & Hz);
      [discriminate | by apply Hout | reflexivity |].
    rewrite Hn. unfold int. do 2 f_equal.
    apply (Hz 12); [reflexivity | by right].
  - destruct (H "status" (VStr "1")) as (_ & _ & Hstatus & _);
      [discriminate | reflexivity |].
    apply Hstatus; [discriminate | by apply Hin | by apply Hout].
  - destruct (H "sticky" (int 0)) as (_ & _ & Hsticky & _);
      [discriminate | reflexivity |].
    apply Hsticky; [discriminate | by apply Hin | by apply Hout].
Defined.

(** C4 as stated fails for an attribute that holds [undefined]: set on a
    node, [uid] stays [undefined] in what [toJSON] returns, where the
    integer coercion would give [0]. *)
Lemma toJSON_keeps_undefined :
  let e := Model.set (Model.SetKey "uid" VUndefined)
             (Model.create NodeClass 1 ∅) in
  attributes e !! "uid" = Some VUndefined
  ∧ "uid" ∈ integerFields (constructor e)
  ∧ Model.toJSON e !! "uid" = Some VUndefined
  ∧ recoerced_as_claimed (constructor e) "uid" VUndefined = int 0
  ∧ ¬ (∀ (e : Entity) (key : string) (v : value),
         key ≠ "rdf_mapping" → attributes e !! key = Some v →
         Model.toJSON e !! key
           = Some (recoerced_as_claimed (constructor e) key v)).
Proof.
  intros e. split; [reflexivity|]. split.
  { apply (bool_decide_unpack _). vm_compute. exact I. }
  split; [reflexivity|]. split; [reflexivity|].
  intros H. specialize (H e "uid" VUndefined ltac:(discriminate) eq_refl).
  vm_compute in H. discriminate.
Qed.

(** ** Tasks: what holds wherever a task ends *)

Lemma Leaves_run {A} (I : list outcome → Prop)
    (P : list outcome → World → state A → Prop) h (t : Task A) :
  Leaves I P h t →
  ∀ script,
    match result (run t script) with
    | Some p => P (h ++ consumed (run t script) script)%list
                  (final (run t script)) p
    | None => I (h ++ script)%list
    end.
Proof.
  induction 1 as [h w p HP | h w rq k HI _ IH]; intros script.
  - simpl. unfold consumed. simpl. by rewrite take_0, app_nil_r.
  - destruct script as [|o script]; simpl.
    + by rewrite app_nil_r.
    + specialize (IH o script). unfold consumed in *. simpl.
      rewrite <- !app_assoc in IH. exact IH.
Qed.

Lemma Leaves_then_ {A B} I (Q : list outcome → World → state A → Prop)
    (P : list outcome → World → state B → Prop) h (p : Task A) f :
  Leaves I Q h p →
  (∀ h' w a, Q h' w (Resolved a) → Leaves I P h' (f a w)) →
  (∀ h' w, Q h' w Rejected → P h' w Rejected) →
  (∀ h' w, Q h' w Pending → P h' w Pending) →
  (∀ h' w, Q h' w Thrown → P h' w Thrown) →
  Leaves I P h (then_ p f).
Proof.
  intros Hp Hres Hrej Hpen Hthr.
  induction Hp as [h w [a| | |] HQ | h w rq k HI _ IH]; simpl;
    try (apply Leaves_done; auto; fail); auto.
  by apply Leaves_ajax.
Qed.

Lemma Leaves_resolving {A B} I (Q : list outcome → World → state A → Prop)
    (P : list outcome → World → state B → Prop) h (p : Task A) f :
  Leaves I Q h p →
  (∀ h' w a, Q h' w (Resolved a) → Leaves I P h' (f a w)) →
  (∀ h' w, Q h' w Rejected → P h' w Pending) →
  (∀ h' w, Q h' w Pending → P h' w Pending) →
  (∀ h' w, Q h' w Thrown → P h' w Thrown) →
  Leaves I P h (resolving p f).
Proof.
  intros Hp Hres Hrej Hpen Hthr.
  induction Hp as [h w [a| | |] HQ | h w rq k HI _ IH]; simpl;
    try (apply Leaves_done; auto; fail); auto.
  by apply Leaves_ajax.
Qed.

Lemma failed_snoc h o : failed (h ++ [o])%list ↔ failed h ∨ o = Failure.
Proof.
  unfold failed. rewrite elem_of_app, list_elem_of_singleton.
  split; (intros [?|?]; [by left | by right]).
Qed.

Lemma ajax_leaves rq w h :
  intact h → Leaves intact (request_post w) h (ajax rq w).
Proof.
  intros Hh. apply Leaves_ajax; [done|]. intros [data|]; apply Leaves_done.
  - split; [|by exists h]. repeat split.
    unfold intact in *. rewrite failed_snoc. intros [?|?]; done.
  - split; [|done]. repeat split. by exists h.
Qed.

Lemma sync_post_resolved_intact {A} w0 h w (a : A) :
  sync_post w0 h w (Resolved a) → intact h.
Proof. by intros (_ & _ & ?). Qed.

Lemma sync_post_rebase {A B} w0 w1 h1 (a : A) :
  sync_post w0 h1 w1 (Resolved a) →
  ∀ h2 w2 (p : state B), sync_post w1 h2 w2 p → sync_post w0 h2 w2 p.
Proof.
  intros (Hs & Hr & _) h2 w2 p (Hs' & Hr' & Hp).
  repeat split; [congruence | congruence | done].
Qed.

Lemma Leaves_impl {A} I (Q P : list outcome → World → state A → Prop) h t :
  Leaves I Q h t → (∀ h' w p, Q h' w p → P h' w p) → Leaves I P h t.
Proof.
  intros Ht HQP. induction Ht as [h w p HQ | h w rq k HI _ IH].
  - apply Leaves_done. auto.
  - apply Leaves_ajax; auto.
Qed.

Lemma getCsrfToken_leaves w h :
  intact h → Leaves intact (sync_post w) h (getCsrfToken w).
Proof.
  intros Hh. unfold getCsrfToken. destruct (truthy (csrfToken w)); simpl.
  - by apply Leaves_done.
  - apply Leaves_ajax; [done|]. intros [data|]; simpl; apply Leaves_done.
    + repeat split. unfold intact in *. rewrite failed_snoc. intros [?|?]; done.
    + repeat split. by exists h.
Qed.

(** ** The sync override: where its requests go *)

Lemma append_nonempty (root url : string) : url ≠ "" → root +:+ url ≠ "".
Proof. destruct root; [done | discriminate]. Qed.

Lemma append_nonempty_l (root url : string) : root ≠ "" → root +:+ url ≠ "".
Proof. destruct root; [done | discriminate]. Qed.

Lemma truthy_str (s : string) : truthy (VStr s) = true ↔ s ≠ "".
Proof.
  simpl. rewrite negb_true_iff. apply String.eqb_neq.
Qed.

Lemma model_url_nonempty (model : Syncable) (url : string) :
  model_url model = Some url → url ≠ "".
Proof.
  destruct model as [e|f|c|]; simpl; intros [= <-].
  - unfold Model.url. destruct (Model.isNew e);
      repeat apply append_nonempty_l; discriminate.
  - unfold FileModel.url, Model.url. destruct (Model.isNew _);
      repeat apply append_nonempty_l; discriminate.
  - discriminate.
Qed.

Lemma url_or_model_nonempty options model url :
  url_or_model options model = Some url → url ≠ "".
Proof.
  unfold url_or_model. destruct (opt_url options) as [u|].
  - destruct (truthy (VStr u)) eqn:Hu.
    + intros [= <-]. by apply truthy_str.
    + apply model_url_nonempty.
  - apply model_url_nonempty.
Qed.

(** Entity models, file models and collections always have a target. *)
Lemma url_or_model_entity options model :
  model ≠ ASession → is_Some (url_or_model options model).
Proof.
  intros Hmodel. unfold url_or_model.
  assert (is_Some (model_url model)) by by destruct model.
  destruct (opt_url options) as [u|]; [|done].
  by destruct (truthy (VStr u)).
Qed.

Lemma url_or_model_with_url token url options model :
  url ≠ "" →
  url_or_model (with_token_header token (with_url url options)) model
    = Some url.
Proof.
  intros Hurl. unfold url_or_model. cbn [opt_url with_token_header with_url].
  apply truthy_str in Hurl. by rewrite Hurl.
Qed.

(** Once the token is known, the override hands [dispatched] to the
    transport. *)
Lemma _sync_dispatched method model options url token w w' :
  url ≠ "" →
  _sync method model
    (with_token_header token (with_url (appRoot w +:+ url) options)) w'
  = ajax (dispatched method model options url token w) w'.
Proof.
  intros Hurl. unfold _sync.
  by rewrite url_or_model_with_url by by apply append_nonempty.
Qed.

Lemma sync_cached method model options url w :
  url_or_model options model = Some url →
  truthy (csrfToken w) = true →
  sync method model options w
  = ajax (dispatched method model options url (csrfToken w) w) w.
Proof.
  intros Hurl Htok. unfold sync, getCsrfToken. rewrite Hurl, Htok. simpl.
  apply _sync_dispatched. by eapply url_or_model_nonempty.
Qed.

Lemma run_sync_fetching method model options url w script :
  url_or_model options model = Some url →
  truthy (csrfToken w) = false →
  run (sync method model options w) script =
    match script with
    | [] => {| final := w; sent := [tokenRequest w]; result := None |}
    | Failure :: _ =>
        {| final := w; sent := [tokenRequest w]; result := Some Rejected |}
    | Success data :: rest =>
        let w' := setCsrfToken (data_token data) w in
        let r :=
          run (ajax (dispatched method model options url (data_token data) w)
                 w') rest in
        {| final := final r; sent := tokenRequest w :: sent r;
           result := result r |}
    end.
Proof.
  intros Hurl Htok. unfold sync, getCsrfToken. rewrite Hurl, Htok. simpl.
  destruct script as [|[data|] rest]; simpl; try reflexivity.
  rewrite _sync_dispatched by by eapply url_or_model_nonempty. reflexivity.
Qed.

Lemma sync_leaves method model options url w h :
  url_or_model options model = Some url →
  intact h → Leaves intact (request_post w) h (sync method model options w).
Proof.
  intros Hurl Hh. unfold sync. rewrite Hurl.
  eapply Leaves_then_; [by apply getCsrfToken_leaves | | | |].
  - intros h' w' token Hpost. simpl.
    rewrite _sync_dispatched by by eapply url_or_model_nonempty.
    eapply Leaves_impl;
      [apply ajax_leaves; by eapply sync_post_resolved_intact|].
    intros h2 w2 p [Hp Hans]. split; [|done].
    by apply (sync_post_rebase _ _ _ _ Hpost).
  - by intros h' w' Hp.
  - by intros h' w' (_ & _ & []).
  - by intros h' w' (_ & _ & []).
Qed.

Lemma doPost_leaves postUrl postData w h :
  postUrl ≠ "" → intact h →
  Leaves intact (request_post w) h (SessionModel.doPost postUrl postData w).
Proof.
  intros Hurl Hh. apply (sync_leaves _ _ _ postUrl); [|done].
  change (url_or_model (SessionModel.post_options postUrl postData) ASession)
    with (if truthy (VStr postUrl) then Some postUrl else None).
  apply truthy_str in Hurl. by rewrite Hurl.
Qed.

(** C6: with a token cached, [getCsrfToken] resolves with it and sends
    nothing; with none, it sends exactly one request, a POST to the token
    endpoint, and on success stores the returned token (the cache then
    holds it, the rest of the world is as it was, and the next call
    returns it without a request) and resolves with it; after
    [resetCsrfToken] the cache is empty and the next call sends that
    request again. *)
Theorem getCsrfToken_cached_or_fetched (w : World) :
  (truthy (csrfToken w) = true →
     ∀ script, run (getCsrfToken w) script =
       {| final := w; sent := [];
          result := Some (Resolved (csrfToken w)) |})
  ∧ (truthy (csrfToken w) = false →
       (∀ script, sent (run (getCsrfToken w) script) = [tokenRequest w])
       ∧ (∀ data rest,
            let r := run (getCsrfToken w) (Success data :: rest) in
            r = {| final := setCsrfToken (data_token data) w;
                   sent := [tokenRequest w];
                   result := Some (Resolved (data_token data)) |}
            ∧ csrfToken (final r) = data_token data
            ∧ appRoot (final r) = appRoot w
            ∧ session (final r) = session w
            ∧ (truthy (data_token data) = true →
               ∀ script', run (getCsrfToken (final r)) script' =
                 {| final := final r; sent := [];
                    result := Some (Resolved (data_token data)) |})))
  ∧ req_url (tokenRequest w) = appRoot w +:+ "/user/token"
  ∧ req_type (tokenRequest w) = "POST"
  ∧ csrfToken (resetCsrfToken w) = VBool false
  ∧ truthy (csrfToken (resetCsrfToken w)) = false
  ∧ (∀ script,
       sent (run (getCsrfToken (resetCsrfToken w)) script) = [tokenRequest w]).
Proof.
  assert (Hfetch : ∀ w', truthy (csrfToken w') = false →
            ∀ script, sent (run (getCsrfToken w') script) = [tokenRequest w']).
  { intros w' Hw' script. unfold getCsrfToken. rewrite Hw'. simpl.
    by destruct script as [|[data|] rest]. }
  assert (Hcached : ∀ w', truthy (csrfToken w') = true →
            ∀ script, run (getCsrfToken w') script =
              {| final := w'; sent := [];
                 result := Some (Resolved (csrfToken w')) |}).
  { intros w' Hw' script. unfold getCsrfToken. by rewrite Hw'. }
  split; [apply Hcached|]. split; [|repeat split].
  - intros Htok. split; [by apply Hfetch|].
    intros data rest r.
    assert (Hr : r = {| final := setCsrfToken (data_token data) w;
                        sent := [tokenRequest w];
                        result := Some (Resolved (data_token data)) |}).
    { subst r. unfold getCsrfToken. by rewrite Htok. }
    rewrite Hr. cbn [final]. repeat split.
    intros Htruthy script'. by rewrite Hcached.
  - intros script. by rewrite Hfetch.
Qed.

Lemma getCsrfToken_cached_or_fetched_witness :
  run (getCsrfToken (setCsrfToken (VStr "abc") (initial ""))) [] =
    {| final := setCsrfToken (VStr "abc") (initial ""); sent := [];
       result := Some (Resolved (VStr "abc")) |}
  ∧ sent (run (getCsrfToken (initial "")) [Failure]) = [tokenRequest (initial "")]
  ∧ (let r := run (getCsrfToken (initial ""))
                [Success {| data_token := VStr "abc"; data_user := None |}] in
     csrfToken (final r) = VStr "abc"
     ∧ run (getCsrfToken (final r)) [Failure] =
         {| final := final r; sent := [];
            result := Some (Resolved (VStr "abc")) |}).
Proof.
  split; [|split].
  - exact (proj1 (getCsrfToken_cached_or_fetched
                    (setCsrfToken (VStr "abc") (initial ""))) eq_refl []).
  - exact (proj1 (proj1 (proj2 (getCsrfToken_cached_or_fetched (initial "")))
                    eq_refl) [Failure]).
  - destruct (proj2 (proj1 (proj2 (getCsrfToken_cached_or_fetched (initial "")))
                       eq_refl)
                {| data_token := VStr "abc"; data_user := None |} [])
      as (_ & Hstored & _ & _ & Hnext).
    split; [exact Hstored|]. exact (Hnext eq_refl [Failure]).
Defined.

(** Setting a header on a fresh request, and setting it again under a
    name that differs in case at most. *)
Lemma setRequestHeader_empty (name : string) (v : value) :
  setRequestHeader name v ∅ = {[ name := v ]}.
Proof.
  unfold setRequestHeader, header_name. by rewrite map_to_list_empty.
Qed.

Lemma setRequestHeader_again (name name' : string) (v v' : value) :
  toLowerCase name' = toLowerCase name →
  setRequestHeader name' v' (setRequestHeader name v ∅) = {[ name := v' ]}.
Proof.
  intros Hname. rewrite setRequestHeader_empty.
  unfold setRequestHeader, header_name.
  rewrite map_to_list_singleton. cbn [fmap list_fmap fst].
  rewrite filter_cons, decide_True by done. cbn [head default].
  apply insert_singleton_eq.
Qed.

Lemma setRequestHeader_another (name name' : string) (v v' : value) :
  toLowerCase name' ≠ toLowerCase name →
  setRequestHeader name' v' (setRequestHeader name v ∅)
  = {[ name' := v'; name := v ]}.
Proof.
  intros Hname. rewrite setRequestHeader_empty.
  unfold setRequestHeader, header_name.
  rewrite map_to_list_singleton. cbn [fmap list_fmap fst].
  by rewrite filter_cons, decide_False by done.
Qed.

Example setRequestHeader_examples :
  setRequestHeader "X-CSRF-Token" (VStr "abc") ∅
    = {[ "X-CSRF-Token" := VStr "abc" ]}
  ∧ setRequestHeader "x-csrf-token" (VStr "mine")
      (setRequestHeader "X-CSRF-Token" (VStr "abc") ∅)
    = {[ "X-CSRF-Token" := VStr "mine" ]}
  ∧ setRequestHeader "Accept" (VStr "text/plain")
      (setRequestHeader "X-CSRF-Token" (VStr "abc") ∅)
    = {[ "Accept" := VStr "text/plain"; "X-CSRF-Token" := VStr "abc" ]}.
Proof.
  split; [apply setRequestHeader_empty|]. split.
  - by apply setRequestHeader_again.
  - apply setRequestHeader_another. by vm_compute.
Qed.

(** C7, as the code has it: a call through [sync] reaches the transport
    only once the token is known: with none cached, nothing but the token
    request is sent until it succeeds, and if it fails the call is
    rejected and the transport is never called.  The request handed to
    the transport has had [X-CSRF-Token] set to the token, and the
    caller's [beforeSend] hook, if any, run after that; unless that hook
    changes the header, the request carries the token in it. *)
Theorem sync_sends_after_token (method : Method) (model : Syncable)
    (options : Options) (url : string) (w : World) :
  url_or_model options model = Some url →
  (∀ token,
     let rq := dispatched method model options url token w in
     req_headers rq =
       caller_hook options (setRequestHeader "X-CSRF-Token" token ∅)
     ∧ req_headers rq = caller_hook options {[ "X-CSRF-Token" := token ]}
     ∧ (beforeSend options = None →
        req_headers rq = {[ "X-CSRF-Token" := token ]})
     ∧ ((∀ xhr, caller_hook options xhr !! "X-CSRF-Token"
                = xhr !! "X-CSRF-Token") →
        req_headers rq !! "X-CSRF-Token" = Some token)
     ∧ req_url rq = appRoot w +:+ url
     ∧ withCredentials rq = true)
  ∧ (truthy (csrfToken w) = true →
       ∀ script, sent (run (sync method model options w) script) =
         [dispatched method model options url (csrfToken w) w])
  ∧ (truthy (csrfToken w) = false →
       run (sync method model options w) [] =
         {| final := w; sent := [tokenRequest w]; result := None |}
       ∧ (∀ rest, run (sync method model options w) (Failure :: rest) =
            {| final := w; sent := [tokenRequest w];
               result := Some Rejected |})
       ∧ (∀ data rest,
            sent (run (sync method model options w) (Success data :: rest)) =
              [tokenRequest w;
               dispatched method model options url (data_token data) w])).
Proof.
  intros Hurl. split; [|split].
  - intros token.
    assert (Hheaders :
      req_headers (dispatched method model options url token w) =
        caller_hook options (setRequestHeader "X-CSRF-Token" token ∅)).
    { unfold dispatched, params, caller_hook. simpl.
      by destruct (beforeSend options). }
    cbv zeta. split; [exact Hheaders|].
    rewrite Hheaders, setRequestHeader_empty.
    split; [done|]. split; [|split; [|by split]].
    + unfold caller_hook. by intros ->.
    + intros Hkeep. rewrite Hkeep. apply lookup_insert_eq.
  - intros Htok script. rewrite (sync_cached _ _ _ _ _ Hurl Htok).
    by destruct script as [|[data|] rest].
  - intros Htok. repeat split; intros;
      rewrite (run_sync_fetching _ _ _ _ _ _ Hurl Htok); try reflexivity.
    simpl. by destruct rest as [|[data'|] rest].
Qed.

Lemma sync_sends_after_token_witness :
  run (sync Read (ACollection NodeClass)
         {| opt_type := None; opt_url := None; opt_data := None;
            opt_contentType := None; xhrFields_withCredentials := false;
            beforeSend := Some (setRequestHeader "Accept" (VStr "json")) |}
         (initial "")) [Failure] =
    {| final := initial ""; sent := [tokenRequest (initial "")];
       result := Some Rejected |}
  ∧ req_headers
      (dispatched Update (AnEntity (Model.create NodeClass 1 {[ "nid" := int 7 ]}))
         {| opt_type := None; opt_url := None; opt_data := None;
            opt_contentType := None; xhrFields_withCredentials := false;
            beforeSend := None |}
         "/node/7" (VStr "abc") (initial "")) !! "X-CSRF-Token"
    = Some (VStr "abc").
Proof.
  split.
  - exact (proj1 (proj2 (proj2 (proj2
      (sync_sends_after_token Read (ACollection NodeClass)
         {| opt_type := None; opt_url := None; opt_data := None;
            opt_contentType := None; xhrFields_withCredentials := false;
            beforeSend := Some (setRequestHeader "Accept" (VStr "json")) |}
         "/node" (initial "") eq_refl)) eq_refl)) []).
  - refine (proj1 (proj2 (proj2 (proj2 (proj1
      (sync_sends_after_token Update
         (AnEntity (Model.create NodeClass 1 {[ "nid" := int 7 ]}))
         {| opt_type := None; opt_url := None; opt_data := None;
            opt_contentType := None; xhrFields_withCredentials := false;
            beforeSend := None |}
         "/node/7" (initial "") eq_refl) (VStr "abc"))))) _).
    intros xhr. reflexivity.
Defined.

(** C7 as stated fails where the caller's hook sets the header itself,
    under whatever spelling of its name: the hook runs after the token
    was put in, and the request carries the hook's value, not the
    token. *)
Lemma sync_hook_replaces_token :
  let options :=
    {| opt_type := None; opt_url := None; opt_data := None;
       opt_contentType := None; xhrFields_withCredentials := false;
       beforeSend := Some (setRequestHeader "x-csrf-token" (VStr "mine")) |} in
  let w := setCsrfToken (VStr "abc") (initial "") in
  let r := run (sync Read (ACollection NodeClass) options w) [] in
  url_or_model options (ACollection NodeClass) = Some "/node"
  ∧ sent r = [dispatched Read (ACollection NodeClass) options "/node"
                (VStr "abc") w]
  ∧ map req_url (sent r) = ["/node"]
  ∧ map req_headers (sent r) = [{[ "X-CSRF-Token" := VStr "mine" ]}]
  ∧ ¬ (∀ method model options url token w,
         url_or_model options model = Some url →
         req_headers (dispatched method model options url token w)
           !! "X-CSRF-Token" = Some token).
Proof.
  intros options w r.
  assert (Hheaders :
    req_headers (dispatched Read (ACollection NodeClass) options "/node"
                   (VStr "abc") w) = {[ "X-CSRF-Token" := VStr "mine" ]}).
  { change (setRequestHeader "x-csrf-token" (VStr "mine")
              (setRequestHeader "X-CSRF-Token" (VStr "abc") ∅)
            = {[ "X-CSRF-Token" := VStr "mine" ]}).
    by apply setRequestHeader_again. }
  split; [reflexivity|]. split; [reflexivity|].
  split; [reflexivity|]. split.
  { change (sent r) with [dispatched Read (ACollection NodeClass) options
                            "/node" (VStr "abc") w].
    cbn [map]. by rewrite Hheaders. }
  intros H.
  specialize (H Read (ACollection NodeClass) options "/node" (VStr "abc") w
                eq_refl).
  rewrite Hheaders, lookup_singleton_eq in H. discriminate.
Qed.

(** ** The session *)

Lemma loggedIn_session (w w' : World) :
  session w' = session w → SessionModel.loggedIn w' = SessionModel.loggedIn w.
Proof. unfold SessionModel.loggedIn, SessionModel.get. by intros ->. Qed.

Lemma loggedIn_set (v : value) (w : World) :
  SessionModel.loggedIn (SessionModel.set "loggedIn" v w) = v.
Proof.
  unfold SessionModel.loggedIn, SessionModel.get, prop. simpl.
  by rewrite lookup_insert_eq.
Qed.

Lemma loggedIn_user_set attrs (w : World) :
  SessionModel.loggedIn (SessionModel.user_set attrs w)
  = SessionModel.loggedIn w.
Proof. reflexivity. Qed.

Lemma not_failed_nil : intact [].
Proof. unfold intact, failed. apply not_elem_of_nil. Qed.

Lemma login_leaves (username password : value) (w : World) :
  Leaves intact login_post [] (SessionModel.login username password w).
Proof.
  unfold SessionModel.login.
  destruct (truthy (SessionModel.loggedIn w)) eqn:Hin.
  { apply Leaves_done. repeat split; [apply not_failed_nil | done]. }
  eapply (Leaves_resolving _ (request_post w)).
  - apply doPost_leaves; [discriminate | apply not_failed_nil].
  - intros h1 w1 data [Hpost Hans]. cbv zeta.
    destruct (data_user data) as [connected|] eqn:Huser.
    + destruct (negb (loose_eq_zero (prop connected "uid"))).
      * apply Leaves_done. split; [by eapply sync_post_resolved_intact|].
        split; [|reflexivity].
        by rewrite loggedIn_user_set, loggedIn_set.
      * eapply (Leaves_resolving _
                  (request_post (SessionModel.set "loggedIn" (VBool true) w1))).
        -- apply doPost_leaves; [discriminate|].
           by eapply sync_post_resolved_intact.
        -- intros h2 w2 data' [Hpost' _]. apply Leaves_done.
           split; [by eapply sync_post_resolved_intact|].
           split; [|reflexivity].
           rewrite loggedIn_user_set.
           destruct Hpost' as (Hsession & _ & _).
           rewrite (loggedIn_session
                      (SessionModel.set "loggedIn" (VBool true) w1))
             by exact Hsession.
           by rewrite loggedIn_set.
        -- intros h2 w2 [(_ & _ & Hlast) _]. by left.
        -- by intros h2 w2 [(_ & _ & []) _].
        -- by intros h2 w2 [(_ & _ & []) _].
    + apply Leaves_done. right.
      split; [by eapply sync_post_resolved_intact|].
      split; [|apply loggedIn_set].
      destruct Hans as [h0 ->]. by exists h0, data.
  - intros h1 w1 [(_ & _ & Hlast) _]. by left.
  - by intros h1 w1 [(_ & _ & []) _].
  - by intros h1 w1 [(_ & _ & []) _].
Qed.

(** C5: when the session is marked logged in, [login] resolves at once
    with the session's own user model, sends no request and changes
    nothing; and once a [login] has resolved, every further [login]
    is of that kind and resolves with the same user model. *)
Theorem login_short_circuit (username password : value) (w : World)
    (script : list outcome) :
  (truthy (SessionModel.loggedIn w) = true →
     run (SessionModel.login username password w) script =
       {| final := w; sent := [];
          result := Some (Resolved (user (session w))) |})
  ∧ (∀ e,
       result (run (SessionModel.login username password w) script)
         = Some (Resolved e) →
       let w' := final (run (SessionModel.login username password w) script) in
       ∀ username' password' script',
         run (SessionModel.login username' password' w') script' =
           {| final := w'; sent := []; result := Some (Resolved e) |}).
Proof.
  assert (Hshort : ∀ u p w0 s, truthy (SessionModel.loggedIn w0) = true →
            run (SessionModel.login u p w0) s =
              {| final := w0; sent := [];
                 result := Some (Resolved (user (session w0))) |}).
  { intros u p w0 s Hin. unfold SessionModel.login. by rewrite Hin. }
  split; [apply Hshort|].
  intros e Hres w' username' password' script'.
  assert (Hpost := Leaves_run _ _ _ _ (login_leaves username password w) script).
  rewrite Hres in Hpost. destruct Hpost as (_ & Hin & ->).
  by apply Hshort.
Qed.

Lemma login_short_circuit_witness :
  run (SessionModel.login (VStr "alice") (VStr "secret")
         (SessionModel.set "loggedIn" (VBool true) (initial ""))) [Failure] =
    {| final := SessionModel.set "loggedIn" (VBool true) (initial "");
       sent := [];
       result := Some (Resolved (SessionModel.create 1).(user)) |}
  ∧ sent (run (SessionModel.login (VStr "alice") (VStr "secret")
            (final (run (SessionModel.login (VStr "alice") (VStr "secret")
                           (initial ""))
                      [Success {| data_token := VStr "abc"; data_user := None |};
                       Success {| data_token := VUndefined;
                                  data_user := Some {[ "uid" := int 5 ]} |}])))
            [Failure]) = [].
Proof.
  split.
  - exact (proj1 (login_short_circuit (VStr "alice") (VStr "secret")
                    (SessionModel.set "loggedIn" (VBool true) (initial ""))
                    [Failure]) eq_refl).
  - exact (f_equal sent
      (proj2 (login_short_circuit (VStr "alice") (VStr "secret") (initial "")
                [Success {| data_token := VStr "abc"; data_user := None |};
                 Success {| data_token := VUndefined;
                            data_user := Some {[ "uid" := int 5 ]} |}])
         (Model.set (Model.SetAttrs {[ "uid" := int 5 ]})
            (SessionModel.create 1).(user))
         eq_refl (VStr "alice") (VStr "secret") [Failure])).
Defined.

(** C9: when a request made by [login] fails (the token request, the
    connect request or the credential request), the promise [login]
    returned is left pending, so it never resolves, and that failure is
    the last thing [login] takes note of: it sends nothing more. *)
Theorem login_failure_never_resolves (username password : value) (w : World)
    (script : list outcome) :
  let r := run (SessionModel.login username password w) script in
  failed (consumed r script) →
  result r = Some Pending
  ∧ ∃ h0, consumed r script = (h0 ++ [Failure])%list ∧ ¬ failed h0.
Proof.
  intros r Hfailed.
  assert (Hpost := Leaves_run _ _ _ _ (login_leaves username password w) script).
  fold r in Hpost. simpl in Hpost.
  destruct (result r) as [[e| | |]|].
  - by destruct Hpost as (Hok & _).
  - done.
  - split; [done|]. by destruct Hpost as [Hlast | (Hok & _)].
  - done.
  - exfalso. apply Hpost. unfold failed, consumed in *.
    by eapply subseteq_take.
Qed.

Lemma login_failure_never_resolves_witness :
  result (run (SessionModel.login (VStr "alice") (VStr "wrong") (initial ""))
            [Success {| data_token := VStr "abc"; data_user := None |};
             Success {| data_token := VUndefined;
                        data_user := Some {[ "uid" := int 0 ]} |};
             Failure])
  = Some Pending.
Proof.
  refine (proj1 (login_failure_never_resolves (VStr "alice") (VStr "wrong")
                   (initial "") _ _)).
  unfold failed. vm_compute. do 2 apply list_elem_of_further.
  apply list_elem_of_here.
Defined.

Lemma run_done_ {A} (t : Task A) (f : A → World → World) script :
  run (done_ t f) script =
    let r := run t script in
    {| final := match result r with
                | Some (Resolved a) => f a (final r)
                | _ => final r
                end;
       sent := sent r;
       result := result r |}.
Proof.
  revert script. induction t as [w [a| | |] | w rq k IH]; intros script;
    try reflexivity.
  destruct script as [|o script]; [reflexivity|].
  simpl. by rewrite IH.
Qed.

Lemma url_or_model_post postUrl postData :
  postUrl ≠ "" →
  url_or_model (SessionModel.post_options postUrl postData) ASession
    = Some postUrl.
Proof.
  intros Hurl.
  change (url_or_model (SessionModel.post_options postUrl postData) ASession)
    with (if truthy (VStr postUrl) then Some postUrl else None).
  apply truthy_str in Hurl. by rewrite Hurl.
Qed.

(** The outcomes under which the request proper of a call through [sync]
    gets [o]: the token request, when one is needed, succeeds with [tok]
    first. *)
Lemma run_doPost_outcome postUrl postData w tok o rest :
  postUrl ≠ "" →
  let token :=
    if truthy (csrfToken w) then csrfToken w else data_token tok in
  run (SessionModel.doPost postUrl postData w)
    ((if truthy (csrfToken w) then [] else [Success tok]) ++ o :: rest)%list
  = {| final := setCsrfToken token w;
       sent :=
         ((if truthy (csrfToken w) then [] else [tokenRequest w])
          ++ [dispatched Read ASession
                (SessionModel.post_options postUrl postData) postUrl token w])%list;
       result :=
         Some (match o with
               | Success data => Resolved data
               | Failure => Rejected
               end) |}.
Proof.
  intros Hurl token. subst token. unfold SessionModel.doPost.
  destruct (truthy (csrfToken w)) eqn:Htok.
  - rewrite (sync_cached _ _ _ postUrl) by by try apply url_or_model_post.
    destruct w as [root t s]. by destruct o.
  - rewrite (run_sync_fetching _ _ _ postUrl) by by try apply url_or_model_post.
    by destruct o.
Qed.

(** C8: when the logout request succeeds (the token request before it
    too, where one is needed), the promise resolves, the token cache is
    reset, [loggedIn] is [false], and the user model is the one the
    session had, with every attribute as it was. *)
Theorem logout_success_resets (w : World) (tok data : Response)
    (rest : list outcome) :
  let script :=
    ((if truthy (csrfToken w) then [] else [Success tok])
       ++ Success data :: rest)%list in
  let r := run (SessionModel.logout w) script in
  result r = Some (Resolved data)
  ∧ csrfToken (final r) = VBool false
  ∧ SessionModel.loggedIn (final r) = VBool false
  ∧ user (session (final r)) = user (session w)
  ∧ req_url <$> last (sent r) = Some (appRoot w +:+ "/user/logout").
Proof.
  intros script r. subst r script. unfold SessionModel.logout.
  rewrite run_done_, run_doPost_outcome by discriminate. cbn zeta.
  cbn [result final sent]. repeat split.
  - apply loggedIn_set.
  - by destruct (truthy (csrfToken w)).
Qed.

(** C10: when the logout request fails, the promise is rejected and the
    session is as it was, [loggedIn] included; the token cache is not
    reset: it holds the token the request was sent with. *)
Theorem logout_failure_changes_nothing (w : World) (tok : Response)
    (rest : list outcome) :
  let script :=
    ((if truthy (csrfToken w) then [] else [Success tok])
       ++ Failure :: rest)%list in
  let r := run (SessionModel.logout w) script in
  result r = Some Rejected
  ∧ session (final r) = session w
  ∧ SessionModel.loggedIn (final r) = SessionModel.loggedIn w
  ∧ csrfToken (final r) =
      (if truthy (csrfToken w) then csrfToken w else data_token tok)
  ∧ req_headers <$> last (sent r) =
      Some {[ "X-CSRF-Token" := csrfToken (final r) ]}.
Proof.
  intros script r. subst r script. unfold SessionModel.logout.
  rewrite run_done_, run_doPost_outcome by discriminate. cbn zeta.
  cbn [result final sent]. repeat split.
  by destruct (truthy (csrfToken w)).
Qed.

(** C1 fails on the code: [login] marks the session logged in as soon as
    the connect request succeeds.  When the server then reports the
    anonymous user and refuses the credentials, the session stays marked
    logged in although its user model has no identity; the promise is
    pending, and the next [login] resolves at once with that user. *)
Theorem login_refused_credentials_marks_logged_in :
  let r :=
    run (SessionModel.login (VStr "alice") (VStr "wrong") (initial ""))
      [Success {| data_token := VStr "abc"; data_user := None |};
       Success {| data_token := VUndefined;
                  data_user := Some {[ "uid" := int 0 ]} |};
       Failure] in
  SessionModel.loggedIn (initial "") = VBool false
  ∧ map req_url (sent r) = ["/user/token"; "/system/connect"; "/user/login"]
  ∧ result r = Some Pending
  ∧ SessionModel.loggedIn (final r) = VBool true
  ∧ attributes (user (session (final r))) = ∅
  ∧ Model.isNew (user (session (final r))) = true
  ∧ run (SessionModel.login (VStr "alice") (VStr "secret") (final r)) [] =
      {| final := final r; sent := [];
         result := Some (Resolved (user (session (final r)))) |}.
Proof. vm_compute. repeat split. Qed.

(** * Further properties *)

(** ** The input coercions *)

Lemma convertInteger_integral (v : value) : integral (convertInteger v).
Proof.
  assert (Hparse : integral (if isNaN (parseInt v) then int 0
                             else VNum (parseInt v))).
  { unfold parseInt.
    destruct (parseIntChars_cases (chars (toString v)))
      as [->|[[b ->]|[z ->]]]; simpl.
    - left. by exists 0.
    - right. by exists b.
    - left. by exists z. }
  destruct v as [| |[]|n|s|r]; try exact Hparse.
  left. by exists 1.
Qed.



Lemma convertBoolInput_cases (v : value) :
  convertBoolInput v = VBool true ∨ convertBoolInput v = VBool false.
Proof.
  destruct v as [| |[]|n|s|r]; unfold convertBoolInput; auto;
    destruct (isNaN _); auto; destruct (gt0 _); auto.
Qed.

Lemma convertBoolInput_defined v : typeof (convertBoolInput v) ≠ TUndefined.
Proof. destruct (convertBoolInput_cases v) as [-> | ->]; discriminate. Qed.

(** X2: [convertBoolInput] always yields a boolean, leaves booleans as
    they are, and so does nothing when applied again. *)
Theorem convertBoolInput_boolean (v : value) :
  (∃ b, convertBoolInput v = VBool b)
  ∧ (∀ b, convertBoolInput (VBool b) = VBool b)
  ∧ convertBoolInput (convertBoolInput v) = convertBoolInput v.
Proof.
  split; [|split; [done|]];
    destruct (convertBoolInput_cases v) as [-> | ->]; eauto.
Qed.

(** X3: the two boolean coercions composed.  What [convertBoolOutput]
    sends, read back by [convertBoolInput], is [true] exactly for the
    values sent as [true], and [false] for those sent as [null]; and what
    [convertBoolInput] stored goes out as [true], or as [null] where it
    stored [false], never as [false]. *)
Theorem bool_coercions_compose (v : value) :
  convertBoolInput (convertBoolOutput v) = VBool (reads_as_true v)
  ∧ convertBoolOutput (convertBoolInput v) =
      (if bool_decide (convertBoolInput v = VBool true) then VBool true
       else VNull).
Proof.
  split.
  - destruct v as [| |[]|n|s|r]; simpl; try reflexivity.
    + by destruct (gt0 n).
    + erewrite bool_decide_ext with (Q := s = "1" ∨ s = "true");
        [by case_bool_decide|].
      split; (intros [H|H]; [left|right]; congruence).
  - by destruct (convertBoolInput_cases v) as [-> | ->].
Qed.

(** ** [cleanInput] and [set] *)

Lemma iter_idempotent (f : value → value) (key : string)
    (fields : list string) (v : value) :
  (∀ x, f (f x) = f x) →
  Nat.iter (occurrences key fields) f v =
    if bool_decide (key ∈ fields) then f v else v.
Proof.
  intros Hf. case_bool_decide as Hin.
  - destruct (occurrences key fields) as [|n] eqn:Hn.
    + apply occurrences_zero in Hn. contradiction.
    + clear Hn. induction n as [|n IHn]; [done|].
      change (f (Nat.iter (S n) f v) = f v). by rewrite IHn.
  - apply occurrences_zero in Hin. by rewrite Hin.
Qed.

Lemma cleanInput_lookup (c : EntityClass) (values : gmap string value)
    (key : string) :
  Model.cleanInput c values !! key = cleaned c key <$> values !! key.
Proof.
  unfold Model.cleanInput.
  assert (Hfolds :
    foldl (Model.coerce_field convertBoolInput)
      (foldl (Model.coerce_field convertInteger) values (integerFields c))
      (booleanFields c) !! key
    = (λ v, if bool_decide (typeof v = TUndefined) then v
            else let v := Nat.iter (occurrences key (integerFields c))
                            convertInteger v in
                 if bool_decide (key ∈ booleanFields c)
                 then convertBoolInput v else v) <$> values !! key).
  { rewrite (foldl_coerce_field_lookup _ convertBoolInput_defined).
    rewrite (foldl_coerce_field_lookup _ convertInteger_defined).
    destruct (values !! key) as [v|]; simpl; [|done]. f_equal.
    destruct (bool_decide (typeof v = TUndefined)) eqn:Hv; simpl.
    - by rewrite Hv.
    - apply bool_decide_eq_false in Hv.
      rewrite bool_decide_false
        by (apply iter_defined; [apply convertInteger_defined | done]).
      apply iter_idempotent. intros x.
      by destruct (convertBoolInput_cases x) as [-> | ->]. }
  unfold cleaned. destruct (decide (key = idKey c)) as [->|Hne].
  - rewrite coerce_field_lookup_eq, Hfolds.
    destruct (values !! idKey c) as [v|]; simpl; [|done]. f_equal.
    rewrite (bool_decide_true (idKey c = idKey c)) by done.
    destruct (bool_decide (typeof v = TUndefined)) eqn:Hv; simpl.
    + by rewrite Hv.
    + apply bool_decide_eq_false in Hv.
      rewrite bool_decide_false; [done|].
      case_bool_decide; [apply convertBoolInput_defined|].
      apply iter_defined; [apply convertInteger_defined | done].
  - rewrite coerce_field_lookup_ne, Hfolds by done.
    destruct (values !! key) as [v|]; simpl; [|done]. f_equal.
    by rewrite (bool_decide_false (key = idKey c)) by done.
Qed.

(** X4: [cleanInput] keeps exactly the given keys and gives each field
    its coerced value: integer fields through [convertInteger], boolean
    fields through [convertBoolInput], the id field through
    [convertInteger] whatever the class lists; [undefined] values and
    unlisted fields are left as given. *)
Theorem cleanInput_coerces (c : EntityClass) (values : gmap string value) :
  (∀ key, Model.cleanInput c values !! key = cleaned c key <$> values !! key)
  ∧ dom (Model.cleanInput c values) = dom values
  ∧ (∀ key v, values !! key = Some v →
       key ≠ idKey c → key ∉ booleanFields c → key ∉ integerFields c →
       Model.cleanInput c values !! key = Some v).
Proof.
  split; [apply cleanInput_lookup|]. split.
  - apply set_eq. intros key.
    by rewrite !elem_of_dom, cleanInput_lookup, fmap_is_Some.
  - intros key v Hv Hid Hbool Hint. rewrite cleanInput_lookup, Hv. simpl.
    f_equal. unfold cleaned.
    apply occurrences_zero in Hint. rewrite Hint. simpl.
    rewrite (bool_decide_false (key ∈ booleanFields c)) by done.
    rewrite (bool_decide_false (key = idKey c)) by done.
    by destruct (bool_decide _).
Qed.

Lemma cleanInput_coerces_witness :
  Model.cleanInput NodeClass
    {[ "title" := VStr "Hello"; "nid" := VStr "42" ]} !! "title"
  = Some (VStr "Hello").
Proof.
  refine (proj2 (proj2 (cleanInput_coerces NodeClass
            {[ "title" := VStr "Hello"; "nid" := VStr "42" ]}))
            "title" (VStr "Hello") eq_refl _ _ _);
    apply (bool_decide_unpack _); vm_compute; exact I.
Defined.

Lemma set_attrs_lookup (e : Entity) (attrs : gmap string value)
    (key : string) :
  attributes (Model.set (Model.SetAttrs attrs) e) !! key =
    match attrs !! key with
    | Some v => Some (cleaned (constructor e) key v)
    | None => attributes e !! key
    end.
Proof.
  simpl. rewrite lookup_union, cleanInput_lookup.
  destruct (attrs !! key) as [v|]; destruct (attributes e !! key); done.
Qed.

Lemma set_key_lookup (e : Entity) (k : string) (v : value) (key : string) :
  attributes (Model.set (Model.SetKey k v) e) !! key =
    if bool_decide (key = k) then Some (cleaned (constructor e) k v)
    else attributes e !! key.
Proof.
  change (Model.set (Model.SetKey k v) e)
    with (Model.set (Model.SetAttrs {[ k := v ]}) e).
  rewrite set_attrs_lookup. case_bool_decide as Hk.
  - subst key. by rewrite lookup_singleton_eq.
  - by rewrite lookup_singleton_ne.
Qed.

(** X5: [set(key, val)] and [get].  Every other attribute reads as
    before; the attribute set reads back as its coerced value, which is
    the given value itself for a field that is neither the id nor listed
    as integer or boolean; the model's class and identity are kept. *)
Theorem set_then_get (e : Entity) (k : string) (v : value) :
  let e' := Model.set (Model.SetKey k v) e in
  (∀ k', k' ≠ k → Model.get e' k' = Model.get e k')
  ∧ Model.get e' k = cleaned (constructor e) k v
  ∧ (k ≠ idKey (constructor e) → k ∉ booleanFields (constructor e) →
     k ∉ integerFields (constructor e) → Model.get e' k = v)
  ∧ constructor e' = constructor e ∧ cid e' = cid e.
Proof.
  intros e'. subst e'.
  assert (Hk : Model.get (Model.set (Model.SetKey k v) e) k
               = cleaned (constructor e) k v).
  { unfold Model.get, prop. rewrite set_key_lookup.
    by rewrite bool_decide_true. }
  split; [|split; [exact Hk|split; [|done]]].
  - intros k' Hne. unfold Model.get, prop. rewrite set_key_lookup.
    by rewrite bool_decide_false.
  - intros Hid Hbool Hint. rewrite Hk. unfold cleaned.
    apply occurrences_zero in Hint. rewrite Hint. simpl.
    rewrite (bool_decide_false (k ∈ _)), (bool_decide_false (k = _)) by done.
    by destruct (bool_decide _).
Qed.

Lemma set_then_get_witness :
  Model.label (Model.set (Model.SetKey "title" (VStr "New title"))
                 (Model.create NodeClass 1 {[ "nid" := int 42 ]}))
  = VStr "New title".
Proof.
  refine (proj1 (proj2 (proj2 (set_then_get
            (Model.create NodeClass 1 {[ "nid" := int 42 ]})
            "title" (VStr "New title"))) ) _ _ _);
    apply (bool_decide_unpack _); vm_compute; exact I.
Defined.



Lemma cleaned_canonical (c : EntityClass) (key : string) (v : value) :
  typeof (cleaned c key v) ≠ TUndefined →
  if bool_decide (key = idKey c) then integral (cleaned c key v)
  else if bool_decide (key ∈ booleanFields c)
       then ∃ b, cleaned c key v = VBool b
  else if bool_decide (key ∈ integerFields c)
       then integral (cleaned c key v)
  else True.
Proof.
  unfold cleaned. destruct (decide (typeof v = TUndefined)) as [Hu|Hd].
  { rewrite (bool_decide_true (typeof v = TUndefined)) by done. by intros []. }
  rewrite (bool_decide_false (typeof v = TUndefined)) by done. intros _.
  destruct (decide (key = idKey c)) as [Hid|Hid].
  { rewrite !(bool_decide_true (key = idKey c)) by done.
    apply convertInteger_integral. }
  rewrite !(bool_decide_false (key = idKey c)) by done.
  destruct (decide (key ∈ booleanFields c)) as [Hbool|Hbool].
  { rewrite !(bool_decide_true (key ∈ booleanFields c)) by done.
    destruct (convertBoolInput_cases
                (Nat.iter (occurrences key (integerFields c)) convertInteger v))
      as [-> | ->]; eauto. }
  rewrite !(bool_decide_false (key ∈ booleanFields c)) by done.
  case_bool_decide as Hint; [|done].
  destruct (occurrences key (integerFields c)) as [|n] eqn:Hn.
  - apply occurrences_zero in Hn. contradiction.
  - apply convertInteger_integral.
Qed.

(** X7: canonical typing is an invariant of a model.  A model made by
    the constructor has its id as an integer or an infinity, its boolean
    fields as booleans and its integer fields as integers or infinities
    ([undefined] values aside), and every [set] keeps it so. *)
Theorem set_keeps_canonical :
  (∀ c id attrs, canonical c (attributes (Model.create c id attrs)))
  ∧ (∀ e key,
       canonical (constructor e) (attributes e) →
       canonical (constructor (Model.set key e))
         (attributes (Model.set key e))).
Proof.
  assert (Hset : ∀ e attrs,
    canonical (constructor e) (attributes e) →
    canonical (constructor e)
      (attributes (Model.set (Model.SetAttrs attrs) e))).
  { intros e attrs He key v. rewrite set_attrs_lookup.
    destruct (attrs !! key) as [v0|]; [|apply He].
    intros [= <-]. apply cleaned_canonical. }
  split.
  - intros c id attrs.
    apply (Hset {| constructor := c; cid := id; attributes := ∅ |}).
    intros key v Hv. simpl in Hv. by rewrite lookup_empty in Hv.
  - intros e [|attrs|k v] He.
    + exact He.
    + exact (Hset e attrs He).
    + exact (Hset e {[ k := v ]} He).
Qed.

Lemma set_keeps_canonical_witness :
  canonical NodeClass
    (attributes (Model.set (Model.SetKey "sticky" (VStr "1"))
                   (Model.create NodeClass 1 {[ "nid" := VStr "42" ]}))).
Proof.
  exact (proj2 set_keeps_canonical
           (Model.create NodeClass 1 {[ "nid" := VStr "42" ]})
           (Model.SetKey "sticky" (VStr "1"))
           (proj1 set_keeps_canonical NodeClass 1%positive
              {[ "nid" := VStr "42" ]})).
Defined.

(** ** Paths *)

Lemma chars_append (a b : string) : chars (a +:+ b) = (chars a ++ chars b)%list.
Proof.
  induction a as [|x a IH]; [reflexivity|].
  change (x :: chars (a +:+ b) = x :: (chars a ++ chars b)%list).
  by rewrite IH.
Qed.

Lemma hex_digit_safe (n : nat) : (n < 16)%nat → path_safe (hex_digit n) = true.
Proof.
  intros Hn.
  do 16 (destruct n as [|n]; [reflexivity|]). lia.
Qed.

Lemma encode_byte_safe (c : ascii) :
  Forall (λ x, path_safe x = true) (encode_byte c).
Proof.
  unfold encode_byte. destruct (unreserved c) eqn:Hc.
  - repeat constructor. unfold path_safe. by rewrite Hc.
  - assert (nat_of_ascii c < 256)%nat by apply nat_ascii_bounded.
    repeat constructor.
    + apply hex_digit_safe. apply Nat.Div0.div_lt_upper_bound. lia.
    + apply hex_digit_safe. apply Nat.mod_upper_bound. lia.
Qed.

Lemma encodeURIComponent_safe (s : string) :
  Forall (λ x, path_safe x = true) (chars (encodeURIComponent s)).
Proof.
  unfold encodeURIComponent, str, chars.
  rewrite list_ascii_of_string_of_list_ascii.
  induction (list_ascii_of_string s) as [|c cs IH]; simpl; [constructor|].
  apply Forall_app. split; [apply encode_byte_safe | exact IH].
Qed.

Lemma path_safe_not_query (l : list ascii) :
  Forall (λ x, path_safe x = true) l → "?"%char ∉ l.
Proof.
  intros Hl Hin. rewrite Forall_forall in Hl. by apply Hl in Hin.
Qed.

(** X8: a model's path extends its collection's path, and is that very
    path exactly when the model is new; the same holds of a file model.
    The path of a model of the file class has no question mark in it,
    and the path of a file model has one, which begins the query string
    made of its [fileContents] and [imageStyles] as integers, exactly
    when it is not new. *)
Theorem url_extends_collection_url :
  (∀ e, ∃ rest,
      Model.url e = Collection.url (constructor e) +:+ rest
      ∧ (rest = "" ↔ Model.isNew e = true))
  ∧ (∀ f, ∃ rest,
      FileModel.url f = Collection.url (constructor (file_model f)) +:+ rest
      ∧ (rest = "" ↔ Model.isNew (file_model f) = true))
  ∧ (∀ f, constructor (file_model f) = FileClass →
      ("?"%char ∉ chars (Model.url (file_model f)))
      ∧ ("?"%char ∈ chars (FileModel.url f)
         ↔ Model.isNew (file_model f) = false)
      ∧ (Model.isNew (file_model f) = false →
         FileModel.url f =
           Model.url (file_model f)
             +:+ "?file_contents="
             +:+ toString (convertInteger (fileContents f))
             +:+ "&image_styles="
             +:+ toString (convertInteger (imageStyles f)))).
Proof.
  assert (Hempty : ∀ s, s +:+ "" = s).
  { induction s as [|x s IH]; [done|].
    change (String x (s +:+ "") = String x s). by rewrite IH. }
  split; [|split].
  - intros e. unfold Model.url, Collection.url.
    destruct (Model.isNew e).
    + exists "". by rewrite Hempty.
    + eexists. split; [reflexivity|]. split; [discriminate|done].
  - intros f. unfold FileModel.url, Model.url, Collection.url.
    destruct (Model.isNew (file_model f)).
    + exists "". by rewrite Hempty.
    + eexists. rewrite append_assoc. split; [reflexivity|].
      split; [discriminate|done].
  - intros f Hclass.
    assert (Hpath : "?"%char ∉ chars (Model.url (file_model f))).
    { unfold Model.url. rewrite Hclass.
      destruct (Model.isNew (file_model f)).
      - apply (bool_decide_unpack _). by vm_compute.
      - rewrite !chars_append. rewrite !not_elem_of_app.
        split; [|split]; [apply (bool_decide_unpack _); by vm_compute..|].
        apply path_safe_not_query, encodeURIComponent_safe. }
    split; [exact Hpath|]. unfold FileModel.url.
    destruct (Model.isNew (file_model f)) eqn:Hnew.
    + split; [|done]. split; [by intros ?|done].
    + split; [|done].
      split; [done|]. intros _. rewrite !chars_append.
      rewrite !elem_of_app. right. left.
      apply list_elem_of_here.
Qed.

Lemma url_extends_collection_url_witness :
  ("?"%char ∈ chars (FileModel.url (FileModel.create 1 {[ "fid" := int 7 ]})))
  ∧ ("?"%char ∉ chars (FileModel.url (FileModel.create 1 ∅))).
Proof.
  split.
  - exact (proj2 (proj1 (proj2 (proj2 (proj2 url_extends_collection_url)
             (FileModel.create 1 {[ "fid" := int 7 ]}) eq_refl))) eq_refl).
  - intros Hin.
    discriminate (proj1 (proj1 (proj2 (proj2 (proj2 url_extends_collection_url)
             (FileModel.create 1 ∅) eq_refl))) Hin).
Defined.

(** X18: whatever the id attribute holds, what a model that is not new
    appends to its collection's path is a slash and one path segment:
    unreserved characters and percent escapes only, so no slash,
    question mark, hash, ampersand or space of the id reaches the
    path. *)
Theorem url_escapes_id (e : Entity) :
  Model.isNew e = false →
  ∃ segment,
    Model.url e = Collection.url (constructor e) +:+ "/" +:+ segment
    ∧ Forall (λ c, path_safe c = true) (chars segment)
    ∧ (∀ c, c ∈ chars "/?#& " → c ∉ chars segment).
Proof.
  intros Hnew.
  exists (encodeURIComponent
            (toString (Model.get e (idKey (constructor e))))).
  assert (Hsafe := encodeURIComponent_safe
                     (toString (Model.get e (idKey (constructor e))))).
  split; [|split; [exact Hsafe|]].
  - unfold Model.url, Collection.url. by rewrite Hnew, append_assoc.
  - intros c Hc Hin. rewrite Forall_forall in Hsafe. apply Hsafe in Hin.
    repeat (apply elem_of_cons in Hc as [->|Hc]; [discriminate Hin|]).
    by apply elem_of_nil in Hc.
Qed.

Lemma url_escapes_id_witness :
  ∃ segment,
    Model.url (Model.create NodeClass 1 {[ "nid" := int 7 ]})
      = "/node" +:+ "/" +:+ segment
    ∧ Forall (λ c, path_safe c = true) (chars segment)
    ∧ (∀ c, c ∈ chars "/?#& " → c ∉ chars segment).
Proof.
  exact (url_escapes_id (Model.create NodeClass 1 {[ "nid" := int 7 ]})
           eq_refl).
Defined.

(** ** The token store under failure and overlap *)

(** X9: a failed token request rejects the call and caches nothing, so
    the next call sends the token request again. *)
Theorem getCsrfToken_failure_caches_nothing (w : World)
    (rest script : list outcome) :
  truthy (csrfToken w) = false →
  run (getCsrfToken w) (Failure :: rest) =
    {| final := w; sent := [tokenRequest w]; result := Some Rejected |}
  ∧ sent (run (getCsrfToken (final (run (getCsrfToken w) (Failure :: rest))))
            script) = [tokenRequest w].
Proof.
  intros Htok.
  assert (Hrun : run (getCsrfToken w) (Failure :: rest) =
    {| final := w; sent := [tokenRequest w]; result := Some Rejected |}).
  { unfold getCsrfToken. by rewrite Htok. }
  split; [exact Hrun|]. rewrite Hrun. simpl.
  unfold getCsrfToken. rewrite Htok. simpl.
  by destruct script as [|[data|] script].
Qed.

Lemma getCsrfToken_failure_caches_nothing_witness :
  result (run (getCsrfToken (initial "")) [Failure]) = Some Rejected.
Proof.
  exact (f_equal result
           (proj1 (getCsrfToken_failure_caches_nothing (initial "") [] []
                     eq_refl))).
Defined.

(** X10: the token store has no single-flight guard.  With no token
    cached, a second call made before the first is answered sends a
    token request of its own; each call resolves with the token of its
    own response, and the cache ends up with the one that came last. *)
Theorem getCsrfToken_overlapping_calls (w : World) (data1 data2 : Response) :
  truthy (csrfToken w) = false →
  let first := getCsrfToken w in
  let second := getCsrfToken (world_of first) in
  awaiting first = Some (tokenRequest w)
  ∧ awaiting second = Some (tokenRequest w)
  ∧ let first' := resume first (Success data1) (world_of second) in
    let second' := resume second (Success data2) (world_of first') in
    first' = Done (setCsrfToken (data_token data1) w)
               (Resolved (data_token data1))
    ∧ second' = Done (setCsrfToken (data_token data2) w)
                  (Resolved (data_token data2))
    ∧ csrfToken (world_of first') = data_token data1
    ∧ csrfToken (world_of second') = data_token data2.
Proof.
  intros Htok. unfold getCsrfToken. rewrite Htok. simpl.
  rewrite Htok. simpl. done.
Qed.

Lemma getCsrfToken_overlapping_calls_witness :
  awaiting (getCsrfToken (world_of (getCsrfToken (initial ""))))
  = Some (tokenRequest (initial "")).
Proof.
  exact (proj1 (proj2 (getCsrfToken_overlapping_calls (initial "")
    {| data_token := VStr "a"; data_user := None |}
    {| data_token := VStr "b"; data_user := None |} eq_refl))).
Defined.

(** ** What [sync] leaves alone *)

(** X11: a call through [sync] changes nothing but the token cache,
    and only by storing a token it has just fetched: the session and the
    application root are as before however the requests turn out, with a
    token cached the world is left as it was, and at most two requests
    are sent (it never retries). *)
Theorem sync_changes_only_token_cache (method : Method) (model : Syncable)
    (options : Options) (w : World) (script : list outcome) :
  let r := run (sync method model options w) script in
  session (final r) = session w
  ∧ appRoot (final r) = appRoot w
  ∧ (final r = w ∨ ∃ data rest, script = Success data :: rest
                     ∧ final r = setCsrfToken (data_token data) w)
  ∧ (truthy (csrfToken w) = true → final r = w)
  ∧ (length (sent r) ≤ 2)%nat.
Proof.
  intros r. subst r.
  destruct (url_or_model options model) as [url|] eqn:Hurl.
  2: { unfold sync. rewrite Hurl. simpl. repeat split; auto. }
  destruct (truthy (csrfToken w)) eqn:Htok.
  - rewrite (sync_cached _ _ _ _ _ Hurl Htok).
    destruct script as [|[data|] rest]; simpl; repeat split; auto.
  - rewrite (run_sync_fetching _ _ _ _ _ _ Hurl Htok).
    destruct script as [|[data|] rest]; simpl;
      [repeat split; auto; discriminate| |repeat split; auto; discriminate].
    destruct rest as [|[data'|] rest]; simpl;
      (repeat split; [right; eauto | discriminate | lia]).
Qed.

Lemma sync_changes_only_token_cache_witness :
  final (run (sync Read (ACollection NodeClass)
                (SessionModel.post_options "" None)
                (setCsrfToken (VStr "abc") (initial ""))) [Failure])
  = setCsrfToken (VStr "abc") (initial "").
Proof.
  exact (proj1 (proj2 (proj2 (proj2 (sync_changes_only_token_cache Read
    (ACollection NodeClass) (SessionModel.post_options "" None)
    (setCsrfToken (VStr "abc") (initial "")) [Failure])))) eq_refl).
Defined.

(** ** Login and logout, step by step *)

Lemma run_resolving {A B} (t : Task A) (f : A → World → Task B) script :
  run (resolving t f) script =
    let r := run t script in
    match result r with
    | Some (Resolved a) =>
        let r' := run (f a (final r)) (drop (length (sent r)) script) in
        {| final := final r'; sent := (sent r ++ sent r')%list;
           result := result r' |}
    | Some Thrown =>
        {| final := final r; sent := sent r; result := Some Thrown |}
    | Some _ =>
        {| final := final r; sent := sent r; result := Some Pending |}
    | None => {| final := final r; sent := sent r; result := None |}
    end.
Proof.
  revert script. induction t as [w [a| | |] | w rq k IH]; intros script;
    simpl; try reflexivity.
  - rewrite drop_0. by destruct (run (f a w) script).
  - destruct script as [|o script]; [reflexivity|].
    simpl. rewrite IH. simpl.
    by destruct (result (run (k o w) script)) as [[a| | |]|].
Qed.

Lemma dispatched_post (w : World) postUrl postData token :
  dispatched Read ASession (SessionModel.post_options postUrl postData)
    postUrl token w
  = post_request w postUrl postData token.
Proof. by destruct postData. Qed.

(** [doPost] on the outcomes under which its request proper gets [o]. *)
Lemma run_doPost (w : World) postUrl postData tok o rest :
  postUrl ≠ "" →
  run (SessionModel.doPost postUrl postData w)
    (token_outcomes w tok ++ o :: rest)%list
  = {| final := setCsrfToken (token_in_use w tok) w;
       sent := (token_requests w
                ++ [post_request w postUrl postData (token_in_use w tok)])%list;
       result := Some (match o with
                       | Success data => Resolved data
                       | Failure => Rejected
                       end) |}.
Proof.
  intros Hurl. unfold token_outcomes, token_requests, token_in_use.
  by rewrite (run_doPost_outcome _ _ _ _ _ _ Hurl), dispatched_post.
Qed.

Lemma drop_after_token (w : World) tok (rq : Request) (o : outcome) rest :
  drop (length (token_requests w ++ [rq])%list)
    (token_outcomes w tok ++ o :: rest)%list = rest.
Proof.
  unfold token_requests, token_outcomes.
  by destruct (truthy (csrfToken w)).
Qed.

Lemma setCsrfToken_id (w : World) : setCsrfToken (csrfToken w) w = w.
Proof. by destruct w. Qed.

(** X12: login by a session the server already knows.  When the connect
    request answers with a user record whose [uid] is not [0] (as [!=]
    compares: a string that reads as the number zero is [0]), [login]
    resolves with the session's user model updated from that record,
    marks the session logged in, and has sent the connect request only:
    the user name and the password go into no request, and a token in
    the answer is not stored. *)
Theorem login_by_existing_session (username password : value) (w : World)
    (tok data : Response) (connected : gmap string value)
    (rest : list outcome) :
  truthy (SessionModel.loggedIn w) = false →
  data_user data = Some connected →
  loose_eq_zero (prop connected "uid") = false →
  let r := run (SessionModel.login username password w)
             (token_outcomes w tok ++ Success data :: rest)%list in
  result r = Some (Resolved (user (session (final r))))
  ∧ user (session (final r)) =
      Model.set (Model.SetAttrs connected) (user (session w))
  ∧ SessionModel.loggedIn (final r) = VBool true
  ∧ csrfToken (final r) = token_in_use w tok
  ∧ sent r = (token_requests w
              ++ [post_request w "/system/connect" None
                    (token_in_use w tok)])%list
  ∧ Forall (λ rq, req_data rq = None) (sent r).
Proof.
  intros Hin Huser Huid r.
  assert (Hr : r =
    {| final := SessionModel.user_set (Some connected)
                  (SessionModel.set "loggedIn" (VBool true)
                     (setCsrfToken (token_in_use w tok) w));
       sent := (token_requests w
                ++ [post_request w "/system/connect" None
                      (token_in_use w tok)])%list;
       result := Some (Resolved (Model.set (Model.SetAttrs connected)
                                   (user (session w)))) |}).
  { subst r. unfold SessionModel.login. rewrite Hin.
    rewrite run_resolving, run_doPost by discriminate. cbn zeta.
    cbn [result final sent]. rewrite Huser, Huid. simpl.
    by rewrite app_nil_r. }
  rewrite Hr. cbn [result final sent]. repeat split.
  - apply loggedIn_set.
  - apply Forall_app. split; [|by repeat constructor].
    unfold token_requests. destruct (truthy (csrfToken w)); by repeat constructor.
Qed.

Lemma login_by_existing_session_witness :
  SessionModel.loggedIn
    (final (run (SessionModel.login (VStr "alice") (VStr "secret") (initial ""))
              [Success {| data_token := VStr "abc"; data_user := None |};
               Success {| data_token := VStr "xyz";
                          data_user := Some {[ "uid" := VStr "5" ]} |}]))
  = VBool true.
Proof.
  exact (proj1 (proj2 (proj2 (login_by_existing_session
    (VStr "alice") (VStr "secret") (initial "")
    {| data_token := VStr "abc"; data_user := None |}
    {| data_token := VStr "xyz"; data_user := Some {[ "uid" := VStr "5" ]} |}
    {[ "uid" := VStr "5" ]}
    [] eq_refl eq_refl eq_refl)))).
Defined.

Lemma run_doPost_cached (w : World) postUrl postData o rest :
  postUrl ≠ "" → truthy (csrfToken w) = true →
  run (SessionModel.doPost postUrl postData w) (o :: rest)
  = {| final := w;
       sent := [post_request w postUrl postData (csrfToken w)];
       result := Some (match o with
                       | Success data => Resolved data
                       | Failure => Rejected
                       end) |}.
Proof.
  intros Hurl Htok.
  assert (H := run_doPost w postUrl postData
                 {| data_token := VUndefined; data_user := None |} o rest Hurl).
  unfold token_outcomes, token_requests, token_in_use in H.
  rewrite Htok in H. simpl in H. by rewrite setCsrfToken_id in H.
Qed.

(** X13: login by credentials.  Let the token in use be truthy, the
    connect request answer with a user record whose [uid] is [0] (as
    [!=] compares), and the credential request succeed.  Then [login]
    has sent the connect request and then the user name and the password
    to [/user/login], both with the token in use; it resolves with the
    session's user model, updated from the user record of the second
    answer if it has one, marks the session logged in, and stores the
    token of that answer, which, if truthy, is the one a later call
    through [sync] sends. *)
Theorem login_by_credentials (username password : value) (w : World)
    (tok data data' : Response) (connected : gmap string value)
    (rest : list outcome) :
  truthy (SessionModel.loggedIn w) = false →
  truthy (token_in_use w tok) = true →
  data_user data = Some connected →
  loose_eq_zero (prop connected "uid") = true →
  let r := run (SessionModel.login username password w)
             (token_outcomes w tok
              ++ Success data :: Success data' :: rest)%list in
  result r = Some (Resolved (user (session (final r))))
  ∧ (∀ u, data_user data' = Some u →
       user (session (final r)) =
         Model.set (Model.SetAttrs u) (user (session w)))
  ∧ (data_user data' = None → user (session (final r)) = user (session w))
  ∧ SessionModel.loggedIn (final r) = VBool true
  ∧ csrfToken (final r) = data_token data'
  ∧ sent r = (token_requests w
              ++ [post_request w "/system/connect" None (token_in_use w tok);
                  post_request w "/user/login"
                    (Some {[ "username" := username;
                             "password" := password ]})
                    (token_in_use w tok)])%list
  ∧ (truthy (data_token data') = true →
     ∀ method model options url script,
       url_or_model options model = Some url →
       sent (run (sync method model options (final r)) script) =
         [dispatched method model options url (data_token data') w]).
Proof.
  intros Hin Htok Huser Huid r.
  set (w1 := SessionModel.set "loggedIn" (VBool true)
               (setCsrfToken (token_in_use w tok) w)).
  assert (Hr : r =
    {| final := SessionModel.user_set (data_user data')
                  (setCsrfToken (data_token data') w1);
       sent := (token_requests w
                ++ [post_request w "/system/connect" None (token_in_use w tok);
                    post_request w "/user/login"
                      (Some {[ "username" := username;
                               "password" := password ]})
                      (token_in_use w tok)])%list;
       result := Some (Resolved
                   (user (session (SessionModel.user_set (data_user data')
                                     (setCsrfToken (data_token data') w1))))) |}).
  { subst r. unfold SessionModel.login. rewrite Hin.
    rewrite run_resolving, run_doPost by discriminate. cbn zeta.
    cbn [result final sent]. rewrite Huser, Huid. cbn [negb].
    rewrite drop_after_token. fold w1.
    rewrite run_resolving, (run_doPost_cached w1) by done.
    cbn zeta. cbn [result final sent]. simpl run.
    cbn [result final sent]. by rewrite app_nil_r, <- app_assoc. }
  rewrite Hr. cbn [result final sent].
  split; [done|]. split; [by intros u ->|]. split; [by intros ->|].
  split; [apply loggedIn_set|].
  split; [done|]. split; [done|].
  intros Hnew method model options url script Hurl.
  rewrite (sync_cached _ _ _ url) by done.
  by destruct script as [|[x|] script].
Qed.

Lemma login_by_credentials_witness :
  csrfToken
    (final (run (SessionModel.login (VStr "alice") (VStr "secret") (initial ""))
              [Success {| data_token := VStr "abc"; data_user := None |};
               Success {| data_token := VUndefined;
                          data_user := Some {[ "uid" := int 0 ]} |};
               Success {| data_token := VStr "xyz";
                          data_user := Some {[ "uid" := VStr "5" ]} |}]))
  = VStr "xyz".
Proof.
  exact (proj1 (proj2 (proj2 (proj2 (proj2 (login_by_credentials
    (VStr "alice") (VStr "secret") (initial "")
    {| data_token := VStr "abc"; data_user := None |}
    {| data_token := VUndefined; data_user := Some {[ "uid" := int 0 ]} |}
    {| data_token := VStr "xyz"; data_user := Some {[ "uid" := VStr "5" ]} |}
    {[ "uid" := int 0 ]}
    [] eq_refl eq_refl eq_refl eq_refl)))))).
Defined.

Lemma sent_sync_fetching method model options url w script :
  url_or_model options model = Some url →
  truthy (csrfToken w) = false →
  ∃ more, sent (run (sync method model options w) script)
          = tokenRequest w :: more.
Proof.
  intros Hurl Htok. rewrite (run_sync_fetching _ _ _ _ _ _ Hurl Htok).
  destruct script as [|[data|] rest]; simpl; eauto.
Qed.

(** X14: after a logout that succeeded, the next [login] starts over:
    it does not resolve at once, and the first request it sends is the
    token request, the cache having been reset. *)
Theorem login_after_logout_fetches_token (username password : value)
    (w : World) (tok data : Response) (rest script : list outcome) :
  let r := run (SessionModel.logout w)
             (token_outcomes w tok ++ Success data :: rest)%list in
  let r' := run (SessionModel.login username password (final r)) script in
  head (sent r') = Some (tokenRequest w)
  ∧ (script = [] → result r' = None).
Proof.
  intros r r'.
  assert (Hfinal : final r =
    SessionModel.set "loggedIn" (VBool false)
      (resetCsrfToken (setCsrfToken (token_in_use w tok) w))).
  { subst r. unfold SessionModel.logout.
    by rewrite run_done_, run_doPost by discriminate. }
  subst r'. rewrite Hfinal. clear r Hfinal.
  set (w' := SessionModel.set "loggedIn" (VBool false) _).
  unfold SessionModel.login.
  replace (truthy (SessionModel.loggedIn w')) with false
    by (subst w'; by rewrite loggedIn_set).
  rewrite run_resolving. cbn zeta.
  destruct (sent_sync_fetching Read ASession
              (SessionModel.post_options "/system/connect" None)
              "/system/connect" w' script eq_refl eq_refl) as [more Hsent].
  change (tokenRequest w') with (tokenRequest w) in Hsent.
  fold (SessionModel.doPost "/system/connect" None w') in Hsent.
  split.
  - destruct (result (run (SessionModel.doPost "/system/connect" None w')
                        script)) as [[a| | |]|];
      cbn [sent]; rewrite Hsent; reflexivity.
  - intros ->. reflexivity.
Qed.

Lemma login_after_logout_fetches_token_witness :
  result (run (SessionModel.login (VStr "alice") (VStr "secret")
            (final (run (SessionModel.logout
                           (setCsrfToken (VStr "abc") (initial "")))
                      [Success {| data_token := VUndefined;
                                  data_user := None |}]))) [])
  = None.
Proof.
  exact (proj2 (login_after_logout_fetches_token
    (VStr "alice") (VStr "secret") (setCsrfToken (VStr "abc") (initial ""))
    {| data_token := VUndefined; data_user := None |}
    {| data_token := VUndefined; data_user := None |} [] []) eq_refl).
Defined.

(** ** Integers through their decimal rendering *)

Lemma is_dec_unreserved c : is_dec c = true → unreserved c = true.
Proof.
  intros H%is_dec_cases.
  repeat (apply elem_of_cons in H as [->|H]; [reflexivity|]).
  by apply elem_of_nil in H.
Qed.

Lemma encodeURIComponent_unreserved (s : string) :
  Forall (λ c, unreserved c = true) (chars s) → encodeURIComponent s = s.
Proof.
  intros Hs. unfold encodeURIComponent.
  replace (concat (map encode_byte (chars s))) with (chars s).
  { apply string_of_list_ascii_of_string. }
  induction Hs as [|c cs Hc _ IH]; [done|].
  simpl. unfold encode_byte at 1. rewrite Hc. simpl. by rewrite <- IH.
Qed.

Lemma encodeURIComponent_int (z : Z) :
  encodeURIComponent (pretty z) = pretty z.
Proof.
  apply encodeURIComponent_unreserved.
  destruct z as [|p|p]; [by repeat constructor|..];
    destruct (chars_pretty_pos p) as (dx & Hchars & _ & Hdec & _).
  - rewrite Hchars. eapply Forall_impl; [exact Hdec|].
    intros c. apply is_dec_unreserved.
  - change (chars (pretty (Z.neg p)))
      with ("-"%char :: chars (pretty (Z.pos p))).
    rewrite Hchars. constructor; [reflexivity|].
    eapply Forall_impl; [exact Hdec|]. intros c. apply is_dec_unreserved.
Qed.

(** X15: integers through the input coercions.  The decimal numeral of
    an integer is read as the Number nearest to it; an integer below
    [2^53] in magnitude, or its numeral, comes out of [convertInteger]
    as that very integer, so applying [convertInteger] again to such a
    result changes nothing, and [convertBoolInput] reads it as [true]
    exactly when it is above zero. *)
Theorem convertInteger_fixes_integers (z : Z) :
  convertInteger (VStr (pretty z)) = VNum (normalize (Dec z 0))
  ∧ (Z.abs z < 2 ^ 53 →
     convertInteger (int z) = int z
     ∧ convertInteger (VStr (pretty z)) = int z
     ∧ convertBoolInput (int z) = VBool (0 <? z)
     ∧ (∀ v, convertInteger v = int z →
          convertInteger (convertInteger v) = convertInteger v)).
Proof.
  split.
  - unfold convertInteger, parseInt, toString.
    rewrite parseIntChars_pretty.
    destruct (normalize_int z) as [[b ->]|[z' ->]]; reflexivity.
  - intros Hz.
    assert (Hparse := parseInt_int z Hz). unfold int in Hparse.
    assert (Hint : convertInteger (int z) = int z).
    { unfold convertInteger, int. by rewrite Hparse. }
    split; [exact Hint|]. split; [|split].
    + destruct (convertInteger_spec (VStr (pretty z)))
        as (n & -> & _ & _ & _ & Hn).
      unfold int. f_equal. apply Hn; [done | by right].
    + unfold convertBoolInput, int. rewrite Hparse. simpl.
      unfold gt0. by rewrite normalize_safe.
    + intros v ->. exact Hint.
Qed.

Lemma convertInteger_fixes_integers_witness :
  convertInteger (convertInteger (VStr "42px")) = convertInteger (VStr "42px").
Proof.
  refine (proj2 (proj2 (proj2 (proj2 (convertInteger_fixes_integers 42) _)))
            (VStr "42px") eq_refl).
  reflexivity.
Defined.

(** X16: the path of a model whose id is an integer below [2^53] in
    magnitude is its collection's path, a slash, and the id in decimal,
    with nothing escaped. *)
Theorem url_of_integer_id (e : Entity) (z : Z) :
  Model.get e (idKey (constructor e)) = int z →
  Z.abs z < 2 ^ 53 →
  Model.url e = Collection.url (constructor e) +:+ "/" +:+ pretty z.
Proof.
  intros Hid Hz. unfold Model.url, Model.isNew, Model.has, Collection.url.
  rewrite Hid. cbn [negb int].
  change (toString (int z)) with (numberToString (Dec z 0)).
  by rewrite numberToString_int, encodeURIComponent_int.
Qed.

Lemma url_of_integer_id_witness :
  Model.url (Model.set (Model.SetKey "nid" (VStr "42abc"))
               (Model.create NodeClass 1 ∅)) = "/node/42".
Proof.
  refine (url_of_integer_id
            (Model.set (Model.SetKey "nid" (VStr "42abc"))
               (Model.create NodeClass 1 ∅)) 42 _ _).
  - vm_compute. reflexivity.
  - reflexivity.
Defined.

(** ** What [toJSON] does to canonical values *)

Lemma iter_convertInteger_int (n : nat) (z : Z) :
  Z.abs z < 2 ^ 53 → Nat.iter n convertInteger (int z) = int z.
Proof.
  intros Hz. induction n as [|n IH]; [done|].
  change (convertInteger (Nat.iter n convertInteger (int z)) = int z).
  rewrite IH. unfold convertInteger, int.
  assert (Hparse := parseInt_int z Hz). unfold int in Hparse.
  by rewrite Hparse.
Qed.

(** X17: serialising canonical values.  [toJSON] gives an integer below
    [2^53] in magnitude back as it is (in a field not listed as
    boolean), turns the boolean of a boolean field into [true] or
    [null], and copies every field that is listed as neither. *)
Theorem toJSON_of_canonical_values (e : Entity) (key : string) :
  key ≠ "rdf_mapping" →
  (∀ z, attributes e !! key = Some (int z) → Z.abs z < 2 ^ 53 →
        key ∉ booleanFields (constructor e) →
        Model.toJSON e !! key = Some (int z))
  ∧ (∀ b, attributes e !! key = Some (VBool b) →
          key ∈ booleanFields (constructor e) →
          Model.toJSON e !! key = Some (if b then VBool true else VNull))
  ∧ (key ∉ integerFields (constructor e) →
     key ∉ booleanFields (constructor e) →
     Model.toJSON e !! key = attributes e !! key).
Proof.
  intros Hk.
  assert (Hlookup : Model.toJSON e !! key
                    = recoerced (constructor e) key <$> attributes e !! key)
    by by rewrite toJSON_lookup, bool_decide_false.
  split; [|split].
  - intros z Hz Hrange Hbool. rewrite Hlookup, Hz. simpl.
    f_equal. unfold recoerced. rewrite bool_decide_false by done.
    rewrite (bool_decide_false (key ∈ _)) by done.
    by apply iter_convertInteger_int.
  - intros b Hb Hbool. rewrite Hlookup, Hb. simpl.
    f_equal. unfold recoerced. rewrite bool_decide_false by done.
    rewrite (bool_decide_true (key ∈ _)) by done.
    destruct (occurrences key (integerFields (constructor e))) as [|n];
      [by destruct b|].
    rewrite Nat.iter_succ_r.
    destruct b; simpl convertInteger;
      rewrite iter_convertInteger_int by reflexivity;
      reflexivity.
  - intros Hint Hbool. rewrite Hlookup.
    destruct (attributes e !! key) as [v|]; simpl; [|done]. f_equal.
    unfold recoerced. apply occurrences_zero in Hint. rewrite Hint. simpl.
    rewrite (bool_decide_false (key ∈ _)) by done.
    by destruct (bool_decide _).
Qed.

Lemma toJSON_of_canonical_values_witness :
  Model.toJSON (Model.set (Model.SetKey "sticky" (VBool false))
                  (Model.create NodeClass 1 ∅)) !! "sticky"
  = Some VNull.
Proof.
  refine (proj1 (proj2 (toJSON_of_canonical_values
            (Model.set (Model.SetKey "sticky" (VBool false))
               (Model.create NodeClass 1 ∅)) "sticky" _))
            false _ _).
  - discriminate.
  - vm_compute. reflexivity.
  - apply (bool_decide_unpack _). vm_compute. exact I.
Defined.

(** ** How the promises of [login] and [logout] settle *)

Lemma failed_last (h0 : list outcome) : failed (h0 ++ [Failure])%list.
Proof. apply failed_snoc. by right. Qed.

Lemma failed_consumed {A} (r : Run A) (script : list outcome) :
  failed (consumed r script) → failed script.
Proof. unfold failed, consumed. apply subseteq_take. Qed.

(** X19: the promise of [login] is never rejected and [login] never
    throws, so a failure handler on it never runs.  It is pending for
    good whenever a request has failed, and otherwise only when the
    connect request was answered without a user record, the session
    then being marked logged in all the same; and when it resolves, no
    request has failed, the session is marked logged in, and the value
    is the session's user model. *)
Theorem login_never_rejects (username password : value) (w : World)
    (script : list outcome) :
  let r := run (SessionModel.login username password w) script in
  result r ≠ Some Rejected
  ∧ result r ≠ Some Thrown
  ∧ (failed (consumed r script) → result r = Some Pending)
  ∧ (result r = Some Pending →
     failed (consumed r script)
     ∨ (¬ failed (consumed r script)
        ∧ (∃ h0 data, consumed r script = (h0 ++ [Success data])%list
                      ∧ data_user data = None)
        ∧ SessionModel.loggedIn (final r) = VBool true))
  ∧ (∀ e, result r = Some (Resolved e) →
       ¬ failed (consumed r script)
       ∧ truthy (SessionModel.loggedIn (final r)) = true
       ∧ e = user (session (final r))).
Proof.
  intros r.
  assert (Hpost := Leaves_run _ _ _ _ (login_leaves username password w) script).
  fold r in Hpost. simpl in Hpost.
  destruct (result r) as [[e| | |]|] eqn:Hres; try done.
  - destruct Hpost as (Hok & Hin & He).
    split; [done|]. split; [done|]. split; [done|]. split; [done|].
    by intros e' [= <-].
  - split; [done|]. split; [done|]. split; [done|]. split; [|done].
    intros _. destruct Hpost as [(h0 & Hh & _)|Hpost]; [|by right].
    left. rewrite Hh. apply failed_last.
  - split; [done|]. split; [done|]. split; [|done].
    intros Hf%failed_consumed. contradiction.
Qed.

Lemma Leaves_done_ {A} I (Q P : list outcome → World → state A → Prop)
    h (p : Task A) f :
  Leaves I Q h p →
  (∀ h' w a, Q h' w (Resolved a) → P h' (f a w) (Resolved a)) →
  (∀ h' w, Q h' w Rejected → P h' w Rejected) →
  (∀ h' w, Q h' w Pending → P h' w Pending) →
  (∀ h' w, Q h' w Thrown → P h' w Thrown) →
  Leaves I P h (done_ p f).
Proof.
  intros Hp Hres Hrej Hpen Hthr.
  induction Hp as [h w [a| | |] HQ | h w rq k HI _ IH]; simpl;
    try (apply Leaves_done; auto; fail).
  by apply Leaves_ajax.
Qed.

Lemma logout_leaves (w : World) :
  Leaves intact (logout_post w) [] (SessionModel.logout w).
Proof.
  unfold SessionModel.logout.
  eapply (Leaves_done_ _ (request_post w)).
  - apply doPost_leaves; [discriminate | apply not_failed_nil].
  - intros h w' data [(Hsession & _ & Hok) _]. simpl.
    split; [done|]. split; [done|]. split; [apply loggedIn_set|].
    simpl. by rewrite Hsession.
  - by intros h w' [(Hsession & _ & Hlast) _].
  - by intros h w' [(_ & _ & []) _].
  - by intros h w' [(_ & _ & []) _].
Qed.

(** X20: the promise of [logout], unlike that of [login], follows its
    requests: it is never left pending for good and [logout] never
    throws; it is rejected exactly when a request has failed, and then
    the session is as it was; and when it resolves the token cache is
    reset, the session is marked logged out and its user model is
    untouched. *)
Theorem logout_settles (w : World) (script : list outcome) :
  let r := run (SessionModel.logout w) script in
  result r ≠ Some Pending
  ∧ result r ≠ Some Thrown
  ∧ (result r = Some Rejected ↔ failed (consumed r script))
  ∧ (result r = Some Rejected → session (final r) = session w)
  ∧ (∀ data, result r = Some (Resolved data) →
       csrfToken (final r) = VBool false
       ∧ SessionModel.loggedIn (final r) = VBool false
       ∧ user (session (final r)) = user (session w)).
Proof.
  intros r.
  assert (Hpost := Leaves_run _ _ _ _ (logout_leaves w) script).
  fold r in Hpost. simpl in Hpost.
  destruct (result r) as [[data| | |]|] eqn:Hres; try done.
  - destruct Hpost as (Hok & Htok & Hin & Huser).
    split; [done|]. split; [done|]. split; [by split|]. split; [done|].
    by intros data' _.
  - destruct Hpost as ((h0 & Hh & _) & Hsession).
    split; [done|]. split; [done|]. split; [|by split].
    split; [|done]. intros _. rewrite Hh. apply failed_last.
  - split; [done|]. split; [done|]. split; [|by split].
    split; [done|]. intros Hf%failed_consumed. contradiction.
Qed.

Lemma login_never_rejects_witness :
  result (run (SessionModel.login (VStr "alice") (VStr "secret") (initial ""))
            [Failure]) = Some Pending
  ∧ (let r := run (SessionModel.login (VStr "alice") (VStr "secret")
                     (initial ""))
                [Success {| data_token := VStr "abc"; data_user := None |};
                 Success {| data_token := VUndefined; data_user := None |}] in
     result r = Some Pending
     ∧ SessionModel.loggedIn (final r) = VBool true).
Proof.
  split.
  - refine (proj1 (proj2 (proj2 (login_never_rejects
              (VStr "alice") (VStr "secret") (initial "") [Failure]))) _).
    unfold failed. vm_compute. apply list_elem_of_here.
  - intros r. split; [reflexivity|].
    destruct (proj1 (proj2 (proj2 (proj2 (login_never_rejects
                (VStr "alice") (VStr "secret") (initial "")
                [Success {| data_token := VStr "abc"; data_user := None |};
                 Success {| data_token := VUndefined; data_user := None |}]))))
                eq_refl) as [Hfailed | (_ & _ & Hin)]; [|exact Hin].
    exfalso. unfold failed in Hfailed. vm_compute in Hfailed.
    apply elem_of_cons in Hfailed as [Hfailed|Hfailed]; [discriminate|].
    apply elem_of_cons in Hfailed as [Hfailed|Hfailed]; [discriminate|].
    by apply elem_of_nil in Hfailed.
Defined.

Lemma logout_settles_witness :
  result (run (SessionModel.logout (initial "")) [Failure]) = Some Rejected.
Proof.
  refine (proj2 (proj1 (proj2 (proj2 (logout_settles (initial "")
                                        [Failure])))) _).
  unfold failed. vm_compute. apply list_elem_of_here.
Defined.
